(** * Throughput calculator: CPI / throughput model and parameter sweeps

    Shallow embedding of [Throughput_Calculator_Source_GP.py].

    The Python program computes with [float] values.  The embedding is written
    once, over an interface [PyFloat] that lists the float operations the
    program uses, and is then read under two arithmetics:

    - [Exact]: canonical rationals [Qc]; every operation is exact.  Algebraic
      facts about the formulas are proved here.
    - [Binary64]: IEEE-754 binary64 with round-to-nearest-even, as given by
      [SpecFloat]; this is the arithmetic CPython uses, and concrete runs of
      the program are evaluated here.

    Exceptions are values of [Py.result]; the widget variables the update
    functions read are fields of the record [Gui]; what an update function
    hands to the plot or to the table is its return value. *)

From Stdlib Require Import ZArith QArith Qcanon Qround Qabs Qpower.
From Stdlib Require Import List Sorted Bool Lia Lqa.
From Stdlib Require Import SpecFloat.
Import ListNotations.

Set Implicit Arguments.

(** ** Python runtime fragments *)

Module Py.

Inductive exn : Type :=
| ZeroDivisionError
| IndexError
| OverflowError
| ValueError.

Inductive result (A : Type) : Type :=
| Ok (a : A)
| Raise (e : exn).

Arguments Ok {A} a.
Arguments Raise {A} e.

Definition bind {A B : Type} (m : result A) (k : A -> result B) : result B :=
  match m with
  | Ok a => k a
  | Raise e => Raise e
  end.

(** [[f x for x in l]], and the body of a [for] loop that appends one item
    per iteration: the first exception aborts the whole evaluation. *)
Fixpoint mapM {A B : Type} (f : A -> result B) (l : list A) : result (list B) :=
  match l with
  | [] => Ok []
  | x :: t =>
      bind (f x) (fun y => bind (mapM f t) (fun ys => Ok (y :: ys)))
  end.

(** Nested [for] loops whose innermost body appends: the outer loop
    concatenates what the inner loops append. *)
Fixpoint concatM {A B : Type} (f : A -> result (list B)) (l : list A)
  : result (list B) :=
  match l with
  | [] => Ok []
  | x :: t =>
      bind (f x) (fun ys => bind (concatM f t) (fun zs => Ok (ys ++ zs)))
  end.

(** [range(n)]: empty when [n <= 0]. *)
Definition range (n : Z) : list Z := map Z.of_nat (seq 0 (Z.to_nat n)).

(** [l[-1]] *)
Definition last_item {A : Type} (l : list A) : result A :=
  match rev l with
  | [] => Raise IndexError
  | x :: _ => Ok x
  end.

End Py.

Import Py.

(** Two evaluations end the same way: both return, with related values, or
    both raise the same exception. *)
Definition same_outcome {B C : Type} (related : B -> C -> Prop)
           (r1 : Py.result B) (r2 : Py.result C) : Prop :=
  match r1, r2 with
  | Ok b, Ok c => related b c
  | Raise e1, Raise e2 => e1 = e2
  | _, _ => False
  end.

Declare Scope py_scope.
Delimit Scope py_scope with py.
Notation "x <- m ;; k" := (Py.bind m (fun x => k))
  (at level 61, m at next level, right associativity) : py_scope.
Notation "' p <- m ;; k" := (Py.bind m (fun p => k))
  (at level 61, p pattern, m at next level, right associativity) : py_scope.
Open Scope py_scope.

(** ** The float operations the program uses *)

Class PyFloat (F : Type) : Type := {
  of_int : Z -> F;             (* an [int] operand of a mixed operation *)
  literal : Q -> F;            (* a float literal, by the rational its text denotes *)
  add : F -> F -> F;
  sub : F -> F -> F;
  mul : F -> F -> F;
  div : F -> F -> F;           (* the quotient, for a divisor that is not 0 *)
  eqb : F -> F -> bool;        (* [x == y] *)
  ltb : F -> F -> bool;        (* [x < y] *)
  leb : F -> F -> bool;        (* [x <= y] *)
  int_of : F -> Py.result Z;   (* [int(x)]: truncation toward zero *)
  round_to : F -> Z -> F       (* [round(x, ndigits)] *)
}.

Section Program.

Context {F : Type} `{PyFloat F}.

(** [x / y] raises when [y == 0]. *)
Definition truediv (x y : F) : Py.result F :=
  if eqb y (of_int 0) then Raise ZeroDivisionError else Ok (div x y).

(** *** Calculation functions *)

Definition calculate_no_prediction (Pb Pt b : F) : Py.result (F * F) :=
  let cpi := add (of_int 1) (mul (mul Pb Pt) b) in
  throughput <- truediv (of_int 1) cpi ;;
  Ok (cpi, throughput).

Definition calculate_with_prediction (Pb Pt b Pc c : F) : Py.result (F * F) :=
  let cpi :=
    add (of_int 1)
        (mul Pb (add (mul (mul (sub (of_int 1) Pc) Pt) b)
                     (mul (mul Pc Pt) c))) in
  throughput <- truediv (of_int 1) cpi ;;
  Ok (cpi, throughput).

(** *** The [+] and [-] buttons

    The variable holds the text of a float; [var.get()] and [var.set(x)] are
    the value read and the value stored.  [decrement] returns the stored
    value unchanged when the new one is negative.  Every button passes the
    default step. *)

Definition default_step : F := literal 0.1.

Definition increment (var step : F) : F := round_to (add var step) 2.

Definition decrement (var step : F) : F :=
  let new_value := round_to (sub var step) 2 in
  if leb (of_int 0) new_value then new_value else var.

(** The values a variable can hold after any number of button presses. *)
Inductive pressed (initial : F) : F -> Prop :=
| pressed_none : pressed initial initial
| pressed_plus (v : F) :
    pressed initial v -> pressed initial (increment v default_step)
| pressed_minus (v : F) :
    pressed initial v -> pressed initial (decrement v default_step).

(** *** Axes

    [Pb_values] and [Pt_values] are built by the same statements, in both
    update functions of part A:
<<
    X_values = [round(X_min + x_res * i, 10)
                for i in range(int((X_max - X_min) / x_res) + 1)]
    if X_values[-1] < X_max:
        X_values.append(X_max)
>>
*)
Definition rounded_values (X_min X_max x_res : F) : Py.result (list F) :=
  q <- truediv (sub X_max X_min) x_res ;;
  n <- int_of q ;;
  let X_values :=
    map (fun i => round_to (add X_min (mul x_res (of_int i))) 10)
        (range (n + 1)) in
  last <- last_item X_values ;;
  if ltb last X_max then Ok (X_values ++ [X_max]) else Ok X_values.

Definition Pb_values := rounded_values.
Definition Pt_values := rounded_values.

(** Part B:
<<
    Pc_values = [Pc_min + pc_res * i
                 for i in range(int((Pc_max - Pc_min) / pc_res) + 1)]
>>
*)
Definition Pc_values (Pc_min Pc_max pc_res : F) : Py.result (list F) :=
  q <- truediv (sub Pc_max Pc_min) pc_res ;;
  n <- int_of q ;;
  Ok (map (fun i => add Pc_min (mul pc_res (of_int i))) (range (n + 1))).

(** *** Widget state read by the update functions *)

Inductive YAxis : Type := CPI | Throughput.

Record Gui : Type := {
  pb_min_var : F;  pb_max_var : F;  pb_res_var : F;
  pt_min_var : F;  pt_max_var : F;  pt_res_var : F;
  pt_slider_a : F;
  b_slider_a : F;
  y_axis_var_a : YAxis;
  pc_min_var : F;  pc_max_var : F;  pc_res_var : F;
  c_slider_b : F;
  y_axis_var_b : YAxis
}.

Definition toggle_y_axis (y : YAxis) : YAxis :=
  match y with CPI => Throughput | Throughput => CPI end.

(** One [ax.plot(xs, ys, label=..., linestyle=...)] call. *)
Inductive LineStyle : Type := Solid | Dashed.

Record PlotA : Type := {
  pa_x : list F;  pa_y : list F;
  pa_Pt : F;  pa_b : F;  pa_style : LineStyle
}.

Record PlotB : Type := { pb_x : list F;  pb_y : list F;  pb_c : F }.

(** One row of the data frame.  Every loop iteration appends one value to
    each column of the dictionary, so the dictionary of columns is kept as
    the list of its rows. *)
Record RowA : Type := {
  ra_Pb : F;  ra_Pt : F;  ra_b : F;  ra_CPI : F;  ra_Throughput : F
}.

Record RowB : Type := {
  rb_Pc : F;  rb_Pt : F;  rb_b : F;  rb_c : F;
  rb_CPI : F;  rb_Throughput : F
}.

Definition y_value (y : YAxis) (val : F * F) : F :=
  match y with CPI => fst val | Throughput => snd val end.

(** *** Part A *)

Definition axes_part_a (g : Gui) (all_data : bool)
  : Py.result (list F * list F * list F) :=
  Pbs <- Pb_values (pb_min_var g) (pb_max_var g) (pb_res_var g) ;;
  if all_data then
    Pts <- Pt_values (pt_min_var g) (pt_max_var g) (pt_res_var g) ;;
    Ok (Pbs, Pts, [of_int 3; of_int 4])
  else
    Ok (Pbs, [pt_slider_a g], [b_slider_a g]).

Definition plot_lines_a (y : YAxis) (b_values Pt_values Pb_values : list F)
  : Py.result (list PlotA) :=
  concatM (fun b =>
    let linestyle := if eqb b (of_int 3) then Solid else Dashed in
    mapM (fun Pt =>
      values <- mapM (fun Pb => calculate_no_prediction Pb Pt b) Pb_values ;;
      Ok {| pa_x := Pb_values;
            pa_y := map (y_value y) values;
            pa_Pt := Pt;  pa_b := b;  pa_style := linestyle |})
      Pt_values)
    b_values.

Definition update_graph_part_a (g : Gui) (all_data : bool)
  : Py.result (list PlotA) :=
  '(Pbs, Pts, bs) <- axes_part_a g all_data ;;
  plot_lines_a (y_axis_var_a g) bs Pts Pbs.

Definition populate_part_a (b_values Pt_values Pb_values : list F)
  : Py.result (list RowA) :=
  concatM (fun b =>
    concatM (fun Pt =>
      mapM (fun Pb =>
        '(cpi, throughput) <- calculate_no_prediction Pb Pt b ;;
        Ok {| ra_Pb := Pb;
              ra_Pt := round_to Pt 3;
              ra_b := b;
              ra_CPI := round_to cpi 3;
              ra_Throughput := round_to throughput 3 |})
        Pb_values)
      Pt_values)
    b_values.

Definition update_table_part_a (g : Gui) (all_data : bool)
  : Py.result (list RowA) :=
  '(Pbs, Pts, bs) <- axes_part_a g all_data ;;
  populate_part_a bs Pts Pbs.

(** *** Part B *)

Definition Pb_fixed : F := literal (25 # 100).
Definition Pt_fixed : F := literal (6 # 10).
Definition b_fixed : F := of_int 4.

Definition axes_part_b (g : Gui) (all_data : bool)
  : Py.result (list F * list F) :=
  Pcs <- Pc_values (pc_min_var g) (pc_max_var g) (pc_res_var g) ;;
  if all_data then Ok (Pcs, [of_int 0; of_int 1; of_int 2])
  else Ok (Pcs, [c_slider_b g]).

Definition plot_lines_b (y : YAxis) (c_values Pc_values : list F)
  : Py.result (list PlotB) :=
  mapM (fun c =>
    values <- mapM (fun Pc =>
                calculate_with_prediction Pb_fixed Pt_fixed b_fixed Pc c)
                Pc_values ;;
    Ok {| pb_x := Pc_values;  pb_y := map (y_value y) values;  pb_c := c |})
    c_values.

Definition update_graph_part_b (g : Gui) (all_data : bool)
  : Py.result (list PlotB) :=
  '(Pcs, cs) <- axes_part_b g all_data ;;
  plot_lines_b (y_axis_var_b g) cs Pcs.

Definition populate_part_b (c_values Pc_values : list F)
  : Py.result (list RowB) :=
  concatM (fun c =>
    mapM (fun Pc =>
      '(cpi, throughput) <-
         calculate_with_prediction Pb_fixed Pt_fixed b_fixed Pc c ;;
      Ok {| rb_Pc := Pc;
            rb_Pt := Pt_fixed;
            rb_b := b_fixed;
            rb_c := c;
            rb_CPI := round_to cpi 3;
            rb_Throughput := round_to throughput 3 |})
      Pc_values)
    c_values.

Definition update_table_part_b (g : Gui) (all_data : bool)
  : Py.result (list RowB) :=
  '(Pcs, cs) <- axes_part_b g all_data ;;
  populate_part_b cs Pcs.

(** *** The buttons

    The calculate buttons run [[update_graph(...), update_table(...)]]: the
    graph first, the table only when the graph did not raise.  The toggle
    buttons run [toggle_y_axis(y_axis_var, update_graph)]: the variable is
    flipped, then the graph is redrawn with [all_data] at its default,
    [False]; the table is left as it is. *)

Definition calc_button_a (g : Gui) : Py.result (list PlotA * list RowA) :=
  plots <- update_graph_part_a g false ;;
  rows <- update_table_part_a g false ;;
  Ok (plots, rows).

Definition calc_all_button_a (g : Gui) : Py.result (list PlotA * list RowA) :=
  plots <- update_graph_part_a g true ;;
  rows <- update_table_part_a g true ;;
  Ok (plots, rows).

Definition calc_button_b (g : Gui) : Py.result (list PlotB * list RowB) :=
  plots <- update_graph_part_b g false ;;
  rows <- update_table_part_b g false ;;
  Ok (plots, rows).

Definition calc_all_button_b (g : Gui) : Py.result (list PlotB * list RowB) :=
  plots <- update_graph_part_b g true ;;
  rows <- update_table_part_b g true ;;
  Ok (plots, rows).

Definition set_y_axis_var_a (g : Gui) (y : YAxis) : Gui := {|
  pb_min_var := pb_min_var g;  pb_max_var := pb_max_var g;
  pb_res_var := pb_res_var g;
  pt_min_var := pt_min_var g;  pt_max_var := pt_max_var g;
  pt_res_var := pt_res_var g;
  pt_slider_a := pt_slider_a g;
  b_slider_a := b_slider_a g;
  y_axis_var_a := y;
  pc_min_var := pc_min_var g;  pc_max_var := pc_max_var g;
  pc_res_var := pc_res_var g;
  c_slider_b := c_slider_b g;
  y_axis_var_b := y_axis_var_b g
|}.

Definition set_y_axis_var_b (g : Gui) (y : YAxis) : Gui := {|
  pb_min_var := pb_min_var g;  pb_max_var := pb_max_var g;
  pb_res_var := pb_res_var g;
  pt_min_var := pt_min_var g;  pt_max_var := pt_max_var g;
  pt_res_var := pt_res_var g;
  pt_slider_a := pt_slider_a g;
  b_slider_a := b_slider_a g;
  y_axis_var_a := y_axis_var_a g;
  pc_min_var := pc_min_var g;  pc_max_var := pc_max_var g;
  pc_res_var := pc_res_var g;
  c_slider_b := c_slider_b g;
  y_axis_var_b := y
|}.

Definition y_axis_button_a (g : Gui) : Gui * Py.result (list PlotA) :=
  let g' := set_y_axis_var_a g (toggle_y_axis (y_axis_var_a g)) in
  (g', update_graph_part_a g' false).

Definition y_axis_button_b (g : Gui) : Gui * Py.result (list PlotB) :=
  let g' := set_y_axis_var_b g (toggle_y_axis (y_axis_var_b g)) in
  (g', update_graph_part_b g' false).

(** *** Row predicates used in the statements below *)

(** What one iteration of the innermost loop of part A appends. *)
Definition appended_a (b Pt Pb : F) (r : RowA) : Prop :=
  exists cpi throughput,
    calculate_no_prediction Pb Pt b = Ok (cpi, throughput)
    /\ ra_Pb r = Pb /\ ra_Pt r = round_to Pt 3 /\ ra_b r = b
    /\ ra_CPI r = round_to cpi 3
    /\ ra_Throughput r = round_to throughput 3.

(** What one iteration of the inner loop of part B appends. *)
Definition appended_b (c Pc : F) (r : RowB) : Prop :=
  exists cpi throughput,
    calculate_with_prediction Pb_fixed Pt_fixed b_fixed Pc c
    = Ok (cpi, throughput)
    /\ rb_Pc r = Pc /\ rb_Pt r = Pt_fixed /\ rb_b r = b_fixed /\ rb_c r = c
    /\ rb_CPI r = round_to cpi 3
    /\ rb_Throughput r = round_to throughput 3.

End Program.

(** ** Decimal rounding of a rational

    [round(x, ndigits)] rounds the exact value of [x] to the nearest multiple
    of [10^-ndigits], ties going to the even multiple. *)

Module Decimal.

Definition round_half_even (q : Q) : Z :=
  let f := Qfloor q in
  match Qcompare (q - inject_Z f) (1 # 2) with
  | Lt => f
  | Eq => if Z.even f then f else (f + 1)%Z
  | Gt => (f + 1)%Z
  end.

Definition pow10 (n : Z) : Q := Qpower (10 # 1) n.

Definition round_to (q : Q) (ndigits : Z) : Q :=
  inject_Z (round_half_even (q * pow10 ndigits)) / pow10 ndigits.

End Decimal.

(** ** Exact arithmetic *)

Module Exact.

Definition Qc_ltb (x y : Qc) : bool :=
  match (x ?= y)%Qc with Lt => true | _ => false end.

Definition Qc_leb (x y : Qc) : bool :=
  match (x ?= y)%Qc with Gt => false | _ => true end.

Definition Qc_int (x : Qc) : Z := Z.quot (Qnum x) (Zpos (Qden x)).

#[global] Instance Qc_float : PyFloat Qc := {|
  of_int z := Q2Qc (inject_Z z);
  literal q := Q2Qc q;
  add := Qcplus;
  sub := Qcminus;
  mul := Qcmult;
  div := Qcdiv;
  eqb x y := Qeq_bool x y;
  ltb := Qc_ltb;
  leb := Qc_leb;
  int_of x := Ok (Qc_int x);
  round_to x n := Q2Qc (Decimal.round_to x n)
|}.

End Exact.

(** ** IEEE-754 binary64 *)

Module Binary64.

Definition prec : Z := 53.
Definition emax : Z := 1024.

Definition float : Type := spec_float.

(** The value of a finite float. *)
Definition to_Q (x : float) : Q :=
  match x with
  | S754_finite s m e => inject_Z (cond_Zopp s (Zpos m)) * Qpower (2 # 1) e
  | _ => 0
  end.

(** The float nearest to a rational (ties to even). *)
Definition of_Q (q : Q) : float :=
  let d := S754_finite false (Qden q) 0 in
  match Qnum q with
  | Z0 => S754_zero false
  | Zpos p => SFdiv prec emax (S754_finite false p 0) d
  | Zneg p => SFdiv prec emax (S754_finite true p 0) d
  end.

Definition int_of_float (x : float) : Py.result Z :=
  match x with
  | S754_nan => Raise ValueError
  | S754_infinity _ => Raise OverflowError
  | S754_zero _ => Ok 0%Z
  | S754_finite s m e =>
      Ok (cond_Zopp s (match e with
                       | Zneg p => Z.shiftr (Zpos m) (Zpos p)
                       | _ => Z.shiftl (Zpos m) e
                       end))
  end.

Definition round_float (x : float) (ndigits : Z) : float :=
  match x with
  | S754_finite s _ _ =>
      let r := Decimal.round_to (to_Q x) ndigits in
      if Qeq_bool r 0 then S754_zero s else of_Q r
  | _ => x
  end.

#[global] Instance binary64_float : PyFloat float := {|
  of_int z := binary_normalize prec emax z 0 false;
  literal := of_Q;
  add := SFadd prec emax;
  sub := SFsub prec emax;
  mul := SFmul prec emax;
  div := SFdiv prec emax;
  eqb := SFeqb;
  ltb := SFltb;
  leb := SFleb;
  int_of := int_of_float;
  round_to := round_float
|}.

End Binary64.

(** ** The widgets as the program creates them *)

Section Widgets.

Context {F : Type} `{PyFloat F}.

(** The initial values of the variables and sliders. *)
Definition initial_gui : Gui := {|
  pb_min_var := literal 0.2;  pb_max_var := literal 0.3;
  pb_res_var := literal 0.01;
  pt_min_var := literal 0.5;  pt_max_var := literal 0.7;
  pt_res_var := literal 0.1;
  pt_slider_a := literal 0.6;
  b_slider_a := of_int 3;
  y_axis_var_a := Throughput;
  pc_min_var := literal 0.4;  pc_max_var := literal 0.8;
  pc_res_var := literal 0.1;
  c_slider_b := of_int 1;
  y_axis_var_b := Throughput
|}.

End Widgets.

(** ** What the properties below speak of *)

Section Drawings.

Context {F : Type} `{PyFloat F}.

(** A line of the graph of part A and the rows the table loop appends for
    the same [b] and [Pt]. *)
Definition line_rows_a (y : YAxis) (p : PlotA) (rows : list RowA) : Prop :=
  map ra_Pb rows = pa_x p
  /\ map (fun r => y_value y (ra_CPI r, ra_Throughput r)) rows
     = map (fun v => round_to v 3) (pa_y p)
  /\ Forall (fun r => ra_b r = pa_b p /\ ra_Pt r = round_to (pa_Pt p) 3) rows.

Definition lines_rows_a (y : YAxis) (plots : list PlotA) (rows : list RowA)
  : Prop :=
  exists groups, rows = concat groups /\ Forall2 (line_rows_a y) plots groups.

(** Part B. *)
Definition line_rows_b (y : YAxis) (p : PlotB) (rows : list RowB) : Prop :=
  map rb_Pc rows = pb_x p
  /\ map (fun r => y_value y (rb_CPI r, rb_Throughput r)) rows
     = map (fun v => round_to v 3) (pb_y p)
  /\ Forall (fun r => rb_c r = pb_c p /\ rb_Pt r = Pt_fixed /\ rb_b r = b_fixed)
            rows.

Definition lines_rows_b (y : YAxis) (plots : list PlotB) (rows : list RowB)
  : Prop :=
  exists groups, rows = concat groups /\ Forall2 (line_rows_b y) plots groups.

(** The line [ax.plot] draws for one [c] when the axis is empty. *)
Definition empty_line_b (c : F) : PlotB :=
  {| pb_x := [];  pb_y := [];  pb_c := c |}.

(** The [c] values of part B. *)
Definition c_values_of (g : Gui) (all_data : bool) : list F :=
  if all_data then [of_int 0; of_int 1; of_int 2] else [c_slider_b g].

(** [ys'] holds the reciprocals [1 / y] of the values of [ys]. *)
Definition reciprocals (ys ys' : list F) : Prop :=
  Forall2 (fun y y' => y' = div (of_int 1) y) ys ys'.

(** Two drawings of one line, the first with the y-axis on [y], the second
    with the other quantity. *)
Definition toggled_a (y : YAxis) (p q : PlotA) : Prop :=
  pa_x q = pa_x p /\ pa_Pt q = pa_Pt p /\ pa_b q = pa_b p
  /\ pa_style q = pa_style p
  /\ match y with
     | CPI => reciprocals (pa_y p) (pa_y q)
     | Throughput => reciprocals (pa_y q) (pa_y p)
     end.

Definition toggled_b (y : YAxis) (p q : PlotB) : Prop :=
  pb_x q = pb_x p /\ pb_c q = pb_c p
  /\ match y with
     | CPI => reciprocals (pb_y p) (pb_y q)
     | Throughput => reciprocals (pb_y q) (pb_y p)
     end.

(** What distinguishes the lines of one graph of part A: the [b] and [Pt] of
    the label, and the line style, solid for [b == 3]. *)
Definition line_key_a (p : PlotA) : F * F := (pa_b p, pa_Pt p).

Definition well_formed_a (p : PlotA) : Prop :=
  length (pa_y p) = length (pa_x p)
  /\ pa_style p = (if eqb (pa_b p) (of_int 3) then Solid else Dashed).

End Drawings.

(** The values [0.00, 0.01, ..., (n-1)/100] as the float nearest to each. *)
Definition hundredths (n : Z) : list Binary64.float :=
  map (fun k => literal (k # 100)) (range n).

Definition round_trip_b64 (v : Binary64.float) : bool :=
  SFeqb (decrement (increment v default_step) default_step) v.

(** The widgets after [+] on [Pc Min] and [-] on [Pc Max], four times each. *)
Definition inverted_pc_gui {F : Type} `{PyFloat F} : Gui := {|
  pb_min_var := literal 0.2;  pb_max_var := literal 0.3;
  pb_res_var := literal 0.01;
  pt_min_var := literal 0.5;  pt_max_var := literal 0.7;
  pt_res_var := literal 0.1;
  pt_slider_a := literal 0.6;
  b_slider_a := of_int 3;
  y_axis_var_a := Throughput;
  pc_min_var := literal 0.8;  pc_max_var := literal 0.4;
  pc_res_var := literal 0.1;
  c_slider_b := of_int 1;
  y_axis_var_b := Throughput
|}.

(** ** Sample arguments and checks, for the floats the program computes

    What binary64 does to a formula is decided here by evaluation, over
    finite lists of arguments: the probabilities [0.0, 0.2, ..., 1.0] and
    [0.00, 0.01, ..., 1.00], the penalties [0 .. 4], and the values the
    widgets of part B offer. *)

Module Sample.

Import Binary64.

Definition fifths : list float := map (fun k => literal (k # 5)) (range 6).


(** The pairs [(b, c)] of penalties with [c <= b]. *)
Definition penalty_pairs : list (float * float) :=
  flat_map (fun b => map (fun c => (of_int b, of_int c)) (range (b + 1)))
           (range 5).

(** The [c] values of part B, and the resolutions the combo boxes list. *)
Definition c_values : list float := [of_int 0; of_int 1; of_int 2].

Definition res_options : list Q := [0.1; 0.05; 0.02; 0.01]%Q.

Definition is_finite (x : float) : bool :=
  match x with
  | S754_zero _ | S754_finite _ _ _ => true
  | _ => false
  end.

(** [x <= y + tol], on the values of two finite floats. *)
Definition below_within (tol : Q) (x y : float) : bool :=
  is_finite x && is_finite y && Qle_bool (to_Q x) (to_Q y + tol).

(** The cpi and the throughput a call returns, as rationals; nothing when
    the call raises or a float is not finite. *)
Definition values (r : Py.result (float * float)) : option (Q * Q) :=
  match r with
  | Ok (cpi, thr) =>
      if is_finite cpi && is_finite thr then Some (to_Q cpi, to_Q thr)
      else None
  | Raise _ => None
  end.



(** The results along a list of accuracies. *)
Definition accuracy_sweep (Pb Pt b c : float) (Pcs : list float)
  : list (Py.result (float * float)) :=
  map (fun Pc => calculate_with_prediction Pb Pt b Pc c) Pcs.

(** Along the list every call returns, each cpi is below the one before and
    each throughput above the one before. *)
Fixpoint improves_strictly (l : list (Py.result (float * float))) : bool :=
  match l with
  | [] => true
  | r1 :: rest =>
      match r1, rest with
      | Ok _, [] => true
      | Ok (cpi1, thr1), Ok (cpi2, thr2) :: _ =>
          ltb cpi2 cpi1 && ltb thr1 thr2 && improves_strictly rest
      | _, _ => false
      end
  end.

(** Along the list every call returns, and no later cpi is more than [tol]
    above an earlier one, no later throughput more than [tol] below. *)
Fixpoint improves_within_values (tol : Q) (l : list (option (Q * Q))) : bool :=
  match l with
  | [] => true
  | v1 :: rest =>
      forallb (fun v2 =>
                 match v1, v2 with
                 | Some (cpi1, thr1), Some (cpi2, thr2) =>
                     Qle_bool cpi2 (cpi1 + tol) && Qle_bool thr1 (thr2 + tol)
                 | _, _ => false
                 end) rest
      && improves_within_values tol rest
  end.

Definition improves_within (tol : Q) (l : list (Py.result (float * float)))
  : bool :=
  match l with
  | [] => false
  | [r] => match values r with Some _ => true | None => false end
  | _ => improves_within_values tol (map values l)
  end.

(** The three calls return, and the middle one lies between the outer two
    within [tol]: cpi between [lo] and [hi], throughput between [hi] and
    [lo]. *)
Definition between_within (tol : Q) (lo r hi : option (Q * Q)) : bool :=
  match lo, r, hi with
  | Some (cpi_lo, thr_lo), Some (cpi, thr), Some (cpi_hi, thr_hi) =>
      Qle_bool cpi_lo (cpi + tol) && Qle_bool cpi (cpi_hi + tol)
      && Qle_bool thr_hi (thr + tol) && Qle_bool thr (thr_lo + tol)
  | _, _, _ => false
  end.

(** [calculate_with_prediction] between [calculate_no_prediction] with
    penalty [c] and with penalty [b], along a list of accuracies. *)
Definition prediction_between (tol : Q) (Pb Pt b c : float)
           (Pcs : list float) : bool :=
  let lo := values (calculate_no_prediction Pb Pt c) in
  let hi := values (calculate_no_prediction Pb Pt b) in
  forallb (fun Pc =>
             between_within tol lo
               (values (calculate_with_prediction Pb Pt b Pc c)) hi)
          Pcs.

Fixpoint increasing (l : list float) : bool :=
  match l with
  | [] => true
  | x :: rest =>
      match rest with
      | [] => true
      | y :: _ => ltb x y && increasing rest
      end
  end.

(** The axis of part B on the range from [a/10] to [b/10] with resolution
    [r]: it is returned, starts at the minimum, increases strictly, no value
    is more than [1e-9] above the maximum, and it has
    [floor((max - min) / r) + 1] values or one fewer. *)
Definition pc_axis_ok (a b : Z) (r : Q) : bool :=
  let mn := literal (a # 10) in
  let mx := literal (b # 10) in
  let n := Qfloor (((b # 10) - (a # 10)) / r) in
  match Pc_values mn mx (literal r) with
  | Ok (first :: rest) =>
      eqb first mn
      && increasing (first :: rest)
      && forallb (fun x => below_within (1 # 1000000000) x mx) (first :: rest)
      && ((Z.of_nat (length (first :: rest)) =? n + 1)%Z
          || (Z.of_nat (length (first :: rest)) =? n)%Z)
  | _ => false
  end.

(** The ranges [Pc Min <= Pc Max] in [[0, 1]] that the [+] and [-] buttons
    reach, with each listed resolution. *)
Definition pc_ranges : list (Z * Z * Q) :=
  flat_map (fun a =>
    flat_map (fun b => map (fun r => (a, a + b, r)%Z) res_options)
             (range (11 - a)))
    (range 11).

End Sample.


(** * Properties *)

(** ** Comprehensions and loops *)

Lemma bind_ok (A C : Type) (m : Py.result A) (k : A -> Py.result C) (c : C) :
  Py.bind m k = Ok c -> exists a, m = Ok a /\ k a = Ok c.
Proof.
  destruct m as [a|e]; simpl; intros E; [eauto | discriminate].
Qed.

Section Loops.

Variables A B : Type.

Lemma mapM_Forall2 (f : A -> Py.result B) (l : list A) (ys : list B) :
  mapM f l = Ok ys -> Forall2 (fun x y => f x = Ok y) l ys.
Proof.
  revert ys; induction l as [|x t IH]; simpl; intros ys E.
  - injection E as <-. constructor.
  - apply bind_ok in E. destruct E as (y & Ey & E).
    apply bind_ok in E. destruct E as (ys' & Et & E).
    injection E as <-. constructor; auto.
Qed.


Lemma mapM_total (f : A -> Py.result B) (l : list A) :
  (forall x, In x l -> exists y, f x = Ok y) -> exists ys, mapM f l = Ok ys.
Proof.
  induction l as [|x t IH]; simpl; intros Hf; [eauto|].
  destruct (Hf x) as (y & ->); auto.
  destruct IH as (ys & ->); auto.
  simpl. eauto.
Qed.

Lemma mapM_raise (f : A -> Py.result B) (e : Py.exn) (l : list A) :
  (forall x e', In x l -> f x = Raise e' -> e' = e) ->
  (exists x, In x l /\ f x = Raise e) ->
  mapM f l = Raise e.
Proof.
  induction l as [|x t IH]; simpl; intros Hone (x0 & Hin & Hx0); [tauto|].
  destruct (f x) as [y|e'] eqn:Ex; simpl.
  - destruct Hin as [->|Hin]; [congruence|].
    rewrite IH; eauto.
  - f_equal. eauto.
Qed.

Lemma concatM_groups (f : A -> Py.result (list B)) (l : list A) (zs : list B) :
  concatM f l = Ok zs ->
  exists groups, Forall2 (fun x g => f x = Ok g) l groups /\ zs = concat groups.
Proof.
  revert zs; induction l as [|x t IH]; simpl; intros zs E.
  - injection E as <-. exists []. split; [constructor | reflexivity].
  - apply bind_ok in E. destruct E as (g & Eg & E).
    apply bind_ok in E. destruct E as (zs' & Et & E).
    injection E as <-. destruct (IH _ Et) as (gs & HF & ->).
    exists (g :: gs). split; [constructor; auto | reflexivity].
Qed.

Lemma concatM_total (f : A -> Py.result (list B)) (l : list A) :
  (forall x, In x l -> exists g, f x = Ok g) -> exists zs, concatM f l = Ok zs.
Proof.
  induction l as [|x t IH]; simpl; intros Hf; [eauto|].
  destruct (Hf x) as (g & ->); auto.
  destruct IH as (zs & ->); auto.
  simpl. eauto.
Qed.

Lemma concatM_raise (f : A -> Py.result (list B)) (e : Py.exn) (l : list A) :
  (forall x e', In x l -> f x = Raise e' -> e' = e) ->
  (exists x, In x l /\ f x = Raise e) ->
  concatM f l = Raise e.
Proof.
  induction l as [|x t IH]; simpl; intros Hone (x0 & Hin & Hx0); [tauto|].
  destruct (f x) as [y|e'] eqn:Ex; simpl.
  - destruct Hin as [->|Hin]; [congruence|].
    rewrite IH; eauto.
  - f_equal. eauto.
Qed.

End Loops.

Lemma Forall2_length_eq (A B : Type) (R : A -> B -> Prop) (l : list A) (l' : list B) :
  Forall2 R l l' -> length l = length l'.
Proof. induction 1; simpl; congruence. Qed.

Lemma concat_length_uniform (A B : Type) (R : A -> list B -> Prop) (n : nat)
      (l : list A) (groups : list (list B)) :
  Forall2 R l groups ->
  (forall x g, R x g -> length g = n) ->
  length (concat groups) = (length l * n)%nat.
Proof.
  intros HF Hn. induction HF as [|x g l gs Hxg _ IH]; simpl; [reflexivity|].
  rewrite length_app, IH, (Hn _ _ Hxg). reflexivity.
Qed.

(** ** The calculation functions, in any arithmetic *)

Section ModelFacts.

Context {F : Type} `{PyFloat F}.

Lemma truediv_zero (x y : F) :
  eqb y (of_int 0) = true -> truediv x y = Raise ZeroDivisionError.
Proof. unfold truediv. intros ->. reflexivity. Qed.

Lemma truediv_nonzero (x y : F) :
  eqb y (of_int 0) = false -> truediv x y = Ok (div x y).
Proof. unfold truediv. intros ->. reflexivity. Qed.

Lemma truediv_raises_only_zero_division (x y : F) (e : Py.exn) :
  truediv x y = Raise e -> e = ZeroDivisionError.
Proof.
  unfold truediv. destruct (eqb y (of_int 0)); [|discriminate].
  intros E. injection E as <-. reflexivity.
Qed.

Lemma no_prediction_raises_only_zero_division (Pb Pt b : F) (e : Py.exn) :
  calculate_no_prediction Pb Pt b = Raise e -> e = ZeroDivisionError.
Proof.
  unfold calculate_no_prediction.
  destruct (truediv _ _) eqn:E; simpl; [discriminate|].
  intros E'. injection E' as <-.
  eapply truediv_raises_only_zero_division; eassumption.
Qed.

Lemma with_prediction_raises_only_zero_division (Pb Pt b Pc c : F) (e : Py.exn) :
  calculate_with_prediction Pb Pt b Pc c = Raise e -> e = ZeroDivisionError.
Proof.
  unfold calculate_with_prediction.
  destruct (truediv _ _) eqn:E; simpl; [discriminate|].
  intros E'. injection E' as <-.
  eapply truediv_raises_only_zero_division; eassumption.
Qed.

Lemma no_prediction_ok_inv (Pb Pt b cpi throughput : F) :
  calculate_no_prediction Pb Pt b = Ok (cpi, throughput) ->
  cpi = add (of_int 1) (mul (mul Pb Pt) b)
  /\ eqb cpi (of_int 0) = false
  /\ throughput = div (of_int 1) cpi.
Proof.
  unfold calculate_no_prediction, truediv.
  destruct (eqb _ _) eqn:E; simpl; [discriminate|].
  intros E'. injection E' as <- <-. auto.
Qed.

Lemma with_prediction_ok_inv (Pb Pt b Pc c cpi throughput : F) :
  calculate_with_prediction Pb Pt b Pc c = Ok (cpi, throughput) ->
  cpi = add (of_int 1)
            (mul Pb (add (mul (mul (sub (of_int 1) Pc) Pt) b)
                         (mul (mul Pc Pt) c)))
  /\ eqb cpi (of_int 0) = false
  /\ throughput = div (of_int 1) cpi.
Proof.
  unfold calculate_with_prediction, truediv.
  destruct (eqb _ _) eqn:E; simpl; [discriminate|].
  intros E'. injection E' as <- <-. auto.
Qed.

End ModelFacts.

(** ** Exact arithmetic: the interface read in [Qc] *)

Module ExactFacts.

Import Exact.
Local Open Scope Qc_scope.

Lemma eqb_eq (x y : Qc) : eqb x y = true <-> x = y.
Proof.
  simpl. rewrite Qeq_bool_iff. split.
  - apply Qc_is_canon.
  - intros ->. reflexivity.
Qed.

Lemma eqb_neq (x y : Qc) : eqb x y = false <-> x <> y.
Proof.
  rewrite <- eqb_eq. destruct (eqb x y); split; congruence.
Qed.

Lemma ltb_lt (x y : Qc) : ltb x y = true <-> x < y.
Proof.
  simpl. unfold Qc_ltb. rewrite Qclt_alt.
  destruct (x ?= y); split; congruence.
Qed.

Lemma ltb_ge (x y : Qc) : ltb x y = false <-> y <= x.
Proof.
  split.
  - intros E. destruct (Qclt_le_dec x y) as [L|L]; [|exact L].
    apply ltb_lt in L. congruence.
  - intros L. destruct (ltb x y) eqn:E; [|reflexivity].
    apply ltb_lt in E. elim (Qcle_not_lt _ _ L E).
Qed.

Lemma of_int_0 : of_int 0 = 0.
Proof. apply Qc_is_canon. reflexivity. Qed.

Lemma of_int_1 : of_int 1 = 1.
Proof. apply Qc_is_canon. reflexivity. Qed.

Lemma truediv_exact (x y : Qc) :
  y <> 0 -> truediv x y = Ok (x / y).
Proof.
  intros Hy. rewrite truediv_nonzero; [reflexivity|].
  apply eqb_neq. rewrite of_int_0. exact Hy.
Qed.

Lemma truediv_exact_zero (x : Qc) : truediv x 0 = Raise ZeroDivisionError.
Proof.
  rewrite truediv_zero; [reflexivity|].
  apply eqb_eq. rewrite of_int_0. reflexivity.
Qed.

Lemma no_prediction_exact (Pb Pt b : Qc) :
  1 + Pb * Pt * b <> 0 ->
  calculate_no_prediction Pb Pt b
  = Ok (1 + Pb * Pt * b, 1 / (1 + Pb * Pt * b)).
Proof.
  intros Hc. unfold calculate_no_prediction.
  change (@add Qc _) with Qcplus. change (@mul Qc _) with Qcmult.
  rewrite of_int_1, truediv_exact by exact Hc. reflexivity.
Qed.

Lemma with_prediction_exact (Pb Pt b Pc c : Qc) :
  1 + Pb * ((1 - Pc) * Pt * b + Pc * Pt * c) <> 0 ->
  calculate_with_prediction Pb Pt b Pc c
  = Ok (1 + Pb * ((1 - Pc) * Pt * b + Pc * Pt * c),
        1 / (1 + Pb * ((1 - Pc) * Pt * b + Pc * Pt * c))).
Proof.
  intros Hc. unfold calculate_with_prediction.
  change (@add Qc _) with Qcplus. change (@mul Qc _) with Qcmult.
  change (@sub Qc _) with Qcminus.
  rewrite of_int_1, truediv_exact by exact Hc. reflexivity.
Qed.

Lemma no_prediction_exact_zero (Pb Pt b : Qc) :
  1 + Pb * Pt * b = 0 ->
  calculate_no_prediction Pb Pt b = Raise ZeroDivisionError.
Proof.
  intros Hc. unfold calculate_no_prediction.
  change (@add Qc _) with Qcplus. change (@mul Qc _) with Qcmult.
  rewrite of_int_1, Hc, truediv_exact_zero. reflexivity.
Qed.

Lemma with_prediction_exact_zero (Pb Pt b Pc c : Qc) :
  1 + Pb * ((1 - Pc) * Pt * b + Pc * Pt * c) = 0 ->
  calculate_with_prediction Pb Pt b Pc c = Raise ZeroDivisionError.
Proof.
  intros Hc. unfold calculate_with_prediction.
  change (@add Qc _) with Qcplus. change (@mul Qc _) with Qcmult.
  change (@sub Qc _) with Qcminus.
  rewrite of_int_1, Hc, truediv_exact_zero. reflexivity.
Qed.

End ExactFacts.

(** Closed equations between canonical rationals, componentwise. *)
Ltac qc_eval :=
  vm_compute;
  repeat first
    [ reflexivity
    | apply Qc_is_canon; vm_compute; reflexivity
    | f_equal ].

(** ** Exceptions of a model call reach the caller of the table loops *)

Section Propagation.

Context {F : Type} `{PyFloat F}.

Lemma row_a_raises_only_zero_division (Pb Pt b : F) (e : Py.exn) :
  ('(cpi, throughput) <- calculate_no_prediction Pb Pt b ;;
   Ok {| ra_Pb := Pb; ra_Pt := round_to Pt 3; ra_b := b;
         ra_CPI := round_to cpi 3;
         ra_Throughput := round_to throughput 3 |}) = Raise e ->
  calculate_no_prediction Pb Pt b = Raise ZeroDivisionError
  /\ e = ZeroDivisionError.
Proof.
  destruct (calculate_no_prediction Pb Pt b) as [[cpi thr]|e'] eqn:E; simpl;
    [discriminate|].
  intros E'. injection E' as <-.
  apply no_prediction_raises_only_zero_division in E. subst e'. auto.
Qed.

Lemma row_b_raises_only_zero_division (Pc c : F) (e : Py.exn) :
  ('(cpi, throughput) <-
      calculate_with_prediction Pb_fixed Pt_fixed b_fixed Pc c ;;
   Ok {| rb_Pc := Pc; rb_Pt := Pt_fixed; rb_b := b_fixed; rb_c := c;
         rb_CPI := round_to cpi 3;
         rb_Throughput := round_to throughput 3 |}) = Raise e ->
  calculate_with_prediction Pb_fixed Pt_fixed b_fixed Pc c
  = Raise ZeroDivisionError
  /\ e = ZeroDivisionError.
Proof.
  destruct (calculate_with_prediction _ _ _ Pc c) as [[cpi thr]|e'] eqn:E;
    simpl; [discriminate|].
  intros E'. injection E' as <-.
  apply with_prediction_raises_only_zero_division in E. subst e'. auto.
Qed.

Lemma mapM_raise_inv (A B : Type) (f : A -> Py.result B) (l : list A)
      (e : Py.exn) :
  mapM f l = Raise e -> exists x, In x l /\ f x = Raise e.
Proof.
  induction l as [|x t IH]; simpl; [discriminate|].
  destruct (f x) as [y|e'] eqn:Ex; simpl.
  - destruct (mapM f t) as [ys|e''] eqn:Et; simpl; [discriminate|].
    intros E. injection E as <-.
    destruct IH as (x0 & Hin & Hx0); eauto.
  - intros E. injection E as <-. eauto.
Qed.

Lemma concatM_raise_inv (A B : Type) (f : A -> Py.result (list B))
      (l : list A) (e : Py.exn) :
  concatM f l = Raise e -> exists x, In x l /\ f x = Raise e.
Proof.
  induction l as [|x t IH]; simpl; [discriminate|].
  destruct (f x) as [y|e'] eqn:Ex; simpl.
  - destruct (concatM f t) as [ys|e''] eqn:Et; simpl; [discriminate|].
    intros E. injection E as <-.
    destruct IH as (x0 & Hin & Hx0); eauto.
  - intros E. injection E as <-. eauto.
Qed.

Lemma populate_part_a_raises (b_values Pt_values Pb_values : list F) :
  (exists b Pt Pb,
      In b b_values /\ In Pt Pt_values /\ In Pb Pb_values
      /\ calculate_no_prediction Pb Pt b = Raise ZeroDivisionError) ->
  populate_part_a b_values Pt_values Pb_values = Raise ZeroDivisionError.
Proof.
  intros (b & Pt & Pb & Hb & HPt & HPb & E).
  unfold populate_part_a.
  assert (Hrow : forall b' Pt' e,
             mapM (fun Pb' =>
               '(cpi, throughput) <- calculate_no_prediction Pb' Pt' b' ;;
               Ok {| ra_Pb := Pb'; ra_Pt := round_to Pt' 3; ra_b := b';
                     ra_CPI := round_to cpi 3;
                     ra_Throughput := round_to throughput 3 |})
               Pb_values = Raise e -> e = ZeroDivisionError).
  { intros b' Pt' e E'. apply mapM_raise_inv in E'.
    destruct E' as (x & _ & Ex).
    apply row_a_raises_only_zero_division in Ex. tauto. }
  apply concatM_raise.
  - intros b' e _ E'. apply concatM_raise_inv in E'.
    destruct E' as (Pt' & _ & E'). eapply Hrow; eassumption.
  - exists b. split; [assumption|].
    apply concatM_raise.
    + intros Pt' e _ E'. eapply Hrow; eassumption.
    + exists Pt. split; [assumption|].
      apply mapM_raise.
      * intros Pb' e _ E'.
        apply row_a_raises_only_zero_division in E'. tauto.
      * exists Pb. split; [assumption|]. rewrite E. reflexivity.
Qed.

Lemma populate_part_b_raises (c_values Pc_values : list F) :
  (exists c Pc,
      In c c_values /\ In Pc Pc_values
      /\ calculate_with_prediction Pb_fixed Pt_fixed b_fixed Pc c
         = Raise ZeroDivisionError) ->
  populate_part_b c_values Pc_values = Raise ZeroDivisionError.
Proof.
  intros (c & Pc & Hc & HPc & E).
  unfold populate_part_b.
  apply concatM_raise.
  - intros c' e _ E'. apply mapM_raise_inv in E'.
    destruct E' as (x & _ & Ex).
    apply row_b_raises_only_zero_division in Ex. tauto.
  - exists c. split; [assumption|].
    apply mapM_raise.
    + intros Pc' e _ E'.
      apply row_b_raises_only_zero_division in E'. tauto.
    + exists Pc. split; [assumption|]. rewrite E. reflexivity.
Qed.

End Propagation.

(** ** The contracts of the two calculation functions *)

(** C1.  In exact arithmetic, [calculate_no_prediction Pb Pt b] returns
    [cpi = 1 + Pb * Pt * b] and [throughput = 1 / cpi] for every input on
    which the quotient exists, and raises on the others.  On [(0.25, 0.6, 4)] it returns [(1.6, 0.625)]
    in exact arithmetic; in binary64 it returns the floats that the literals
    [1.6] and [0.625] denote, both within [1e-9] of the decimal values. *)
Theorem C1_no_prediction_contract :
  (forall Pb Pt b : Qc,
      ((1 + Pb * Pt * b)%Qc <> 0%Qc ->
       calculate_no_prediction Pb Pt b
       = Ok ((1 + Pb * Pt * b)%Qc, (1 / (1 + Pb * Pt * b))%Qc))
      /\ ((1 + Pb * Pt * b)%Qc = 0%Qc ->
          calculate_no_prediction Pb Pt b = Raise ZeroDivisionError))
  /\ calculate_no_prediction (F := Qc) (literal 0.25) (literal 0.6) (of_int 4)
     = Ok (literal 1.6, literal 0.625)
  /\ (exists cpi throughput : Binary64.float,
         calculate_no_prediction (literal 0.25) (literal 0.6) (of_int 4)
         = Ok (cpi, throughput)
         /\ cpi = literal 1.6
         /\ throughput = literal 0.625
         /\ Qabs (Binary64.to_Q cpi - 1.6) <= 1 # 1000000000
         /\ Qabs (Binary64.to_Q throughput - 0.625) <= 1 # 1000000000).
Proof.
  split.
  { intros Pb Pt b. split.
    - apply ExactFacts.no_prediction_exact.
    - apply ExactFacts.no_prediction_exact_zero. }
  split; [qc_eval|].
  eexists; eexists.
  split; [vm_compute; reflexivity|].
  repeat split; vm_compute; congruence.
Qed.

Lemma C1_no_prediction_contract_witness :
  (1 + Q2Qc 0.5 * Q2Qc 0.5 * Q2Qc 8)%Qc <> 0%Qc
  /\ calculate_no_prediction (Q2Qc 0.5) (Q2Qc 0.5) (Q2Qc 8)
     = Ok ((1 + Q2Qc 0.5 * Q2Qc 0.5 * Q2Qc 8)%Qc,
           (1 / (1 + Q2Qc 0.5 * Q2Qc 0.5 * Q2Qc 8))%Qc).
Proof.
  assert (Hc : (1 + Q2Qc 0.5 * Q2Qc 0.5 * Q2Qc 8)%Qc <> 0%Qc)
    by (vm_compute; discriminate).
  split; [exact Hc|].
  exact (proj1 (proj1 C1_no_prediction_contract _ _ _) Hc).
Defined.

(** C2.  In exact arithmetic, [calculate_with_prediction Pb Pt b Pc c] returns
    [cpi = 1 + Pb * ((1 - Pc) * Pt * b + Pc * Pt * c)] and
    [throughput = 1 / cpi] for every input on which the quotient exists, and
    raises on the others.  On [(0.25, 0.6, 4, 0.5, 1)] it returns [(1.375, 8/11)] in exact arithmetic;
    in binary64 it returns [1.375] and the float nearest to [8/11], which
    prints as [0.7273] at four decimals. *)
Theorem C2_with_prediction_contract :
  (forall Pb Pt b Pc c : Qc,
      ((1 + Pb * ((1 - Pc) * Pt * b + Pc * Pt * c))%Qc <> 0%Qc ->
       calculate_with_prediction Pb Pt b Pc c
       = Ok ((1 + Pb * ((1 - Pc) * Pt * b + Pc * Pt * c))%Qc,
             (1 / (1 + Pb * ((1 - Pc) * Pt * b + Pc * Pt * c)))%Qc))
      /\ ((1 + Pb * ((1 - Pc) * Pt * b + Pc * Pt * c))%Qc = 0%Qc ->
          calculate_with_prediction Pb Pt b Pc c = Raise ZeroDivisionError))
  /\ calculate_with_prediction (F := Qc)
       (literal 0.25) (literal 0.6) (of_int 4) (literal 0.5) (of_int 1)
     = Ok (literal 1.375, literal (8 # 11))
  /\ Qabs ((8 # 11) - 0.7273) <= 1 # 10000
  /\ (exists cpi throughput : Binary64.float,
         calculate_with_prediction
           (literal 0.25) (literal 0.6) (of_int 4) (literal 0.5) (of_int 1)
         = Ok (cpi, throughput)
         /\ cpi = literal 1.375
         /\ throughput = literal (8 # 11)
         /\ round_to throughput 4 = literal 0.7273
         /\ Qabs (Binary64.to_Q cpi - 1.375) <= 1 # 1000000000
         /\ Qabs (Binary64.to_Q throughput - (8 # 11)) <= 1 # 1000000000).
Proof.
  split.
  { intros Pb Pt b Pc c. split.
    - apply ExactFacts.with_prediction_exact.
    - apply ExactFacts.with_prediction_exact_zero. }
  split; [qc_eval|].
  split; [vm_compute; congruence|].
  eexists; eexists.
  split; [vm_compute; reflexivity|].
  repeat split; vm_compute; congruence.
Qed.

Lemma C2_with_prediction_contract_witness :
  (1 + Q2Qc 0.5 * ((1 - Q2Qc 0.25) * Q2Qc 1 * Q2Qc 4
                   + Q2Qc 0.25 * Q2Qc 1 * Q2Qc 2))%Qc <> 0%Qc
  /\ calculate_with_prediction (Q2Qc 0.5) (Q2Qc 1) (Q2Qc 4) (Q2Qc 0.25) (Q2Qc 2)
     = Ok ((1 + Q2Qc 0.5 * ((1 - Q2Qc 0.25) * Q2Qc 1 * Q2Qc 4
                            + Q2Qc 0.25 * Q2Qc 1 * Q2Qc 2))%Qc,
           (1 / (1 + Q2Qc 0.5 * ((1 - Q2Qc 0.25) * Q2Qc 1 * Q2Qc 4
                                 + Q2Qc 0.25 * Q2Qc 1 * Q2Qc 2)))%Qc).
Proof.
  assert (Hc : (1 + Q2Qc 0.5 * ((1 - Q2Qc 0.25) * Q2Qc 1 * Q2Qc 4
                                + Q2Qc 0.25 * Q2Qc 1 * Q2Qc 2))%Qc <> 0%Qc)
    by (vm_compute; discriminate).
  split; [exact Hc|].
  exact (proj1 (proj1 C2_with_prediction_contract _ _ _ _ _) Hc).
Defined.

(** ** Division by a zero CPI *)

(** C8.  In any arithmetic, a call whose [cpi] compares equal to [0] raises
    [ZeroDivisionError], every other call returns [(cpi, 1 / cpi)], and a
    [ZeroDivisionError] of one call is the result of the whole table loop
    (nothing catches it).  In exact arithmetic [Pb * Pt * b = -1] is such an
    input of [calculate_no_prediction], and no other is; in binary64
    [(1.0, 1.0, -1)] is one. *)
Theorem C8_zero_cpi_raises :
  (forall (F : Type) (num : PyFloat F),
      (forall Pb Pt b : F,
          let cpi := add (of_int 1) (mul (mul Pb Pt) b) in
          (eqb cpi (of_int 0) = true ->
           calculate_no_prediction Pb Pt b = Raise ZeroDivisionError)
          /\ (eqb cpi (of_int 0) = false ->
              calculate_no_prediction Pb Pt b = Ok (cpi, div (of_int 1) cpi)))
      /\ (forall Pb Pt b Pc c : F,
             let cpi :=
               add (of_int 1)
                   (mul Pb (add (mul (mul (sub (of_int 1) Pc) Pt) b)
                                (mul (mul Pc Pt) c))) in
             (eqb cpi (of_int 0) = true ->
              calculate_with_prediction Pb Pt b Pc c = Raise ZeroDivisionError)
             /\ (eqb cpi (of_int 0) = false ->
                 calculate_with_prediction Pb Pt b Pc c
                 = Ok (cpi, div (of_int 1) cpi)))
      /\ (forall b_values Pt_values Pb_values : list F,
             (exists b Pt Pb,
                 In b b_values /\ In Pt Pt_values /\ In Pb Pb_values
                 /\ calculate_no_prediction Pb Pt b = Raise ZeroDivisionError) ->
             populate_part_a b_values Pt_values Pb_values
             = Raise ZeroDivisionError)
      /\ (forall c_values Pc_values : list F,
             (exists c Pc,
                 In c c_values /\ In Pc Pc_values
                 /\ calculate_with_prediction Pb_fixed Pt_fixed b_fixed Pc c
                    = Raise ZeroDivisionError) ->
             populate_part_b c_values Pc_values = Raise ZeroDivisionError))
  /\ (forall Pb Pt b : Qc,
         (Pb * Pt * b)%Qc = (- (1))%Qc ->
         calculate_no_prediction Pb Pt b = Raise ZeroDivisionError)
  /\ (forall Pb Pt b : Qc,
         (Pb * Pt * b)%Qc <> (- (1))%Qc ->
         exists cpi throughput,
           calculate_no_prediction Pb Pt b = Ok (cpi, throughput))
  /\ (forall Pb Pt b Pc c : Qc,
         (1 + Pb * ((1 - Pc) * Pt * b + Pc * Pt * c))%Qc = 0%Qc ->
         calculate_with_prediction Pb Pt b Pc c = Raise ZeroDivisionError)
  /\ calculate_no_prediction (F := Binary64.float)
       (literal 1) (literal 1) (of_int (-1))
     = Raise ZeroDivisionError.
Proof.
  split; [|split; [|split; [|split]]].
  - intros F num. split; [|split; [|split]].
    + intros Pb Pt b cpi. unfold calculate_no_prediction. fold cpi. split.
      * intros E. rewrite truediv_zero by exact E. reflexivity.
      * intros E. rewrite truediv_nonzero by exact E. reflexivity.
    + intros Pb Pt b Pc c cpi. unfold calculate_with_prediction. fold cpi.
      split.
      * intros E. rewrite truediv_zero by exact E. reflexivity.
      * intros E. rewrite truediv_nonzero by exact E. reflexivity.
    + apply populate_part_a_raises.
    + apply populate_part_b_raises.
  - intros Pb Pt b E. apply ExactFacts.no_prediction_exact_zero.
    rewrite E. apply Qc_is_canon. reflexivity.
  - intros Pb Pt b E. eexists; eexists.
    apply ExactFacts.no_prediction_exact.
    intros E0. apply E.
    transitivity ((1 + Pb * Pt * b) - 1)%Qc; [ring | rewrite E0; ring].
  - exact ExactFacts.with_prediction_exact_zero.
  - vm_compute. reflexivity.
Qed.

Lemma C8_zero_cpi_raises_witness :
  (Q2Qc 0.5 * Q2Qc 0.5 * Q2Qc (-4))%Qc = (- (1))%Qc
  /\ calculate_no_prediction (Q2Qc 0.5) (Q2Qc 0.5) (Q2Qc (-4))
     = Raise ZeroDivisionError
  /\ In (Q2Qc (-4)) [Q2Qc 3; Q2Qc (-4)]
  /\ populate_part_a [Q2Qc 3; Q2Qc (-4)] [Q2Qc 0.5] [Q2Qc 0.25; Q2Qc 0.5]
     = Raise ZeroDivisionError.
Proof.
  assert (E : (Q2Qc 0.5 * Q2Qc 0.5 * Q2Qc (-4))%Qc = (- (1))%Qc)
    by (apply Qc_is_canon; vm_compute; reflexivity).
  pose proof (proj1 (proj2 C8_zero_cpi_raises) _ _ _ E) as R.
  split; [exact E|]. split; [exact R|].
  split; [right; left; reflexivity|].
  apply (proj1 C8_zero_cpi_raises Qc _).
  exists (Q2Qc (-4)), (Q2Qc 0.5), (Q2Qc 0.5).
  split; [right; left; reflexivity|].
  split; [left; reflexivity|].
  split; [right; left; reflexivity|].
  exact R.
Defined.

(** ** Order and field reasoning on [Qc], through [Q] *)

Module QcOrder.

Local Open Scope Qc_scope.

Lemma this_plus (x y : Qc) : (this (x + y) == this x + this y)%Q.
Proof. exact (Qred_correct _). Qed.

Lemma this_mult (x y : Qc) : (this (x * y) == this x * this y)%Q.
Proof. exact (Qred_correct _). Qed.

Lemma this_opp (x : Qc) : (this (- x) == - this x)%Q.
Proof. exact (Qred_correct _). Qed.

Lemma this_minus (x y : Qc) : (this (x - y) == this x - this y)%Q.
Proof. unfold Qcminus. rewrite this_plus, this_opp. reflexivity. Qed.

Lemma this_inv (x : Qc) : (this (/ x) == / this x)%Q.
Proof. exact (Qred_correct _). Qed.

Lemma this_div (x y : Qc) : (this (x / y) == this x / this y)%Q.
Proof. unfold Qcdiv. rewrite this_mult, this_inv. reflexivity. Qed.


End QcOrder.

(** Push an order goal on [Qc] down to [Q], where [lra] applies. *)
Ltac qc2q :=
  unfold Qcle, Qclt in *;
  repeat match goal with
  | H : context [this (_ + _)%Qc] |- _ => rewrite QcOrder.this_plus in H
  | H : context [this (_ * _)%Qc] |- _ => rewrite QcOrder.this_mult in H
  | H : context [this (_ - _)%Qc] |- _ => rewrite QcOrder.this_minus in H
  | H : context [this (- _)%Qc] |- _ => rewrite QcOrder.this_opp in H
  | |- context [this (_ + _)%Qc] => rewrite QcOrder.this_plus
  | |- context [this (_ * _)%Qc] => rewrite QcOrder.this_mult
  | |- context [this (_ - _)%Qc] => rewrite QcOrder.this_minus
  | |- context [this (- _)%Qc] => rewrite QcOrder.this_opp
  end;
  change (this 0%Qc) with 0%Q in *; change (this 1%Qc) with 1%Q in *.

Module ExactModel.

Local Open Scope Qc_scope.

Lemma inv_pos (x : Qc) : 0 < x -> 0 < 1 / x.
Proof.
  intros Hx. unfold Qclt in *. rewrite QcOrder.this_div.
  change (this 0) with 0%Q in *. change (this 1) with 1%Q.
  unfold Qdiv. rewrite Qmult_1_l. apply Qinv_lt_0_compat. exact Hx.
Qed.

Lemma inv_antitone (x y : Qc) : 0 < y -> y <= x -> 1 / x <= 1 / y.
Proof.
  intros Hy Hxy. unfold Qcle, Qclt in *. rewrite !QcOrder.this_div.
  change (this 0) with 0%Q in *. change (this 1) with 1%Q.
  assert (Hx : (0 < this x)%Q) by lra.
  apply Qle_shift_div_l; [exact Hy|].
  setoid_replace (1 / this x * this y)%Q with (this y / this x)%Q
    by (unfold Qdiv; ring).
  apply Qle_shift_div_r; [exact Hx|]. lra.
Qed.

Lemma pos_neq_0 (x : Qc) : 0 < x -> x <> 0.
Proof. intros Hx E. subst x. exact (Qlt_irrefl _ Hx). Qed.

Lemma ge_1_pos (x : Qc) : 1 <= x -> 0 < x.
Proof. intros Hx. qc2q. lra. Qed.

(** The two CPI formulas on the expected domain. *)
Lemma cpi_no_prediction_ge_1 (Pb Pt b : Qc) :
  0 <= Pb -> 0 <= Pt -> 0 <= b -> 1 <= 1 + Pb * Pt * b.
Proof.
  intros HPb HPt Hb. qc2q.
  assert (0 <= this Pb * this Pt * this b)%Q
    by (apply Qmult_le_0_compat; [apply Qmult_le_0_compat|]; lra).
  lra.
Qed.

Lemma cpi_with_prediction_ge_1 (Pb Pt b Pc c : Qc) :
  0 <= Pb -> 0 <= Pt -> 0 <= b -> 0 <= c -> 0 <= Pc -> Pc <= 1 ->
  1 <= 1 + Pb * ((1 - Pc) * Pt * b + Pc * Pt * c).
Proof.
  intros HPb HPt Hb Hc HPc0 HPc1. qc2q.
  assert (0 <= (1 - this Pc) * this Pt * this b)%Q
    by (apply Qmult_le_0_compat; [apply Qmult_le_0_compat|]; lra).
  assert (0 <= this Pc * this Pt * this c)%Q
    by (apply Qmult_le_0_compat; [apply Qmult_le_0_compat|]; lra).
  assert (0 <= this Pb * ((1 - this Pc) * this Pt * this b
                          + this Pc * this Pt * this c))%Q
    by (apply Qmult_le_0_compat; lra).
  lra.
Qed.

(** With [c <= b] the lower bound needs no lower bound on [Pc]. *)
Lemma cpi_with_prediction_ge_1_below (Pb Pt b Pc c : Qc) :
  0 <= Pb -> 0 <= Pt -> 0 <= c -> c <= b -> Pc <= 1 ->
  1 <= 1 + Pb * ((1 - Pc) * Pt * b + Pc * Pt * c).
Proof.
  intros HPb HPt Hc Hcb HPc.
  assert (E : 1 + Pb * ((1 - Pc) * Pt * b + Pc * Pt * c)
              = 1 + (Pb * Pt) * (c + (1 - Pc) * (b - c))) by ring.
  rewrite E.
  set (X := (Pb * Pt) * (c + (1 - Pc) * (b - c))).
  assert (HX : 0 <= X).
  { unfold X. qc2q.
    assert (0 <= (1 - this Pc) * (this b - this c))%Q
      by (apply Qmult_le_0_compat; lra).
    apply Qmult_le_0_compat; [apply Qmult_le_0_compat|]; lra. }
  clearbody X. qc2q. lra.
Qed.

(** The CPI formula is affine in [Pc], with slope [- Pb * Pt * (b - c)]. *)
Lemma cpi_with_prediction_antitone (Pb Pt b c Pc1 Pc2 : Qc) :
  0 <= Pb -> 0 <= Pt -> c <= b -> Pc1 <= Pc2 ->
  1 + Pb * ((1 - Pc2) * Pt * b + Pc2 * Pt * c)
  <= 1 + Pb * ((1 - Pc1) * Pt * b + Pc1 * Pt * c).
Proof.
  intros HPb HPt Hcb HPc.
  assert (E : 1 + Pb * ((1 - Pc1) * Pt * b + Pc1 * Pt * c)
              = (1 + Pb * ((1 - Pc2) * Pt * b + Pc2 * Pt * c))
                + (Pb * Pt) * ((Pc2 - Pc1) * (b - c))) by ring.
  rewrite E.
  assert (Hd : 0 <= (Pb * Pt) * ((Pc2 - Pc1) * (b - c))).
  { qc2q. apply Qmult_le_0_compat; apply Qmult_le_0_compat; lra. }
  set (X := 1 + Pb * ((1 - Pc2) * Pt * b + Pc2 * Pt * c)) in *.
  set (Y := (Pb * Pt) * ((Pc2 - Pc1) * (b - c))) in *.
  qc2q. lra.
Qed.

End ExactModel.

(** ** The result invariant *)

(** C4.  In any arithmetic, a result [(cpi, throughput)] of either function
    has [throughput = 1 / cpi], the quotient of that arithmetic.  In exact
    arithmetic, on the expected domain ([Pb], [Pt], [Pc] in [[0,1]], [b] and
    [c] not negative) both functions return, with [cpi >= 1] and
    [throughput > 0]. *)
Theorem C4_model_result_invariant :
  (forall (F : Type) (num : PyFloat F) (Pb Pt b Pc c cpi throughput : F),
      (calculate_no_prediction Pb Pt b = Ok (cpi, throughput) ->
       throughput = div (of_int 1) cpi)
      /\ (calculate_with_prediction Pb Pt b Pc c = Ok (cpi, throughput) ->
          throughput = div (of_int 1) cpi))
  /\ (forall Pb Pt b Pc c : Qc,
         (0 <= Pb <= 1)%Qc -> (0 <= Pt <= 1)%Qc -> (0 <= Pc <= 1)%Qc ->
         (0 <= b)%Qc -> (0 <= c)%Qc ->
         (exists cpi throughput,
             calculate_no_prediction Pb Pt b = Ok (cpi, throughput)
             /\ throughput = (1 / cpi)%Qc
             /\ (1 <= cpi)%Qc /\ (0 < throughput)%Qc)
         /\ (exists cpi throughput,
                calculate_with_prediction Pb Pt b Pc c = Ok (cpi, throughput)
                /\ throughput = (1 / cpi)%Qc
                /\ (1 <= cpi)%Qc /\ (0 < throughput)%Qc)).
Proof.
  split.
  - intros F num Pb Pt b Pc c cpi throughput. split; intros E.
    + apply no_prediction_ok_inv in E. tauto.
    + apply with_prediction_ok_inv in E. tauto.
  - intros Pb Pt b Pc c [HPb0 HPb1] [HPt0 HPt1] [HPc0 HPc1] Hb Hc. split.
    + pose proof (ExactModel.cpi_no_prediction_ge_1 HPb0 HPt0 Hb) as Hge.
      pose proof (ExactModel.ge_1_pos Hge) as Hpos.
      eexists; eexists. split; [|split; [reflexivity|split]].
      * apply ExactFacts.no_prediction_exact.
        apply ExactModel.pos_neq_0. exact Hpos.
      * exact Hge.
      * apply ExactModel.inv_pos. exact Hpos.
    + pose proof (ExactModel.cpi_with_prediction_ge_1
                    HPb0 HPt0 Hb Hc HPc0 HPc1) as Hge.
      pose proof (ExactModel.ge_1_pos Hge) as Hpos.
      eexists; eexists. split; [|split; [reflexivity|split]].
      * apply ExactFacts.with_prediction_exact.
        apply ExactModel.pos_neq_0. exact Hpos.
      * exact Hge.
      * apply ExactModel.inv_pos. exact Hpos.
Qed.

Lemma C4_model_result_invariant_witness :
  (0 <= Q2Qc 0.25 <= 1)%Qc /\ (0 <= Q2Qc 0.6 <= 1)%Qc
  /\ (0 <= Q2Qc 0.5 <= 1)%Qc /\ (0 <= Q2Qc 4)%Qc /\ (0 <= Q2Qc 1)%Qc
  /\ (exists cpi throughput,
         calculate_no_prediction (Q2Qc 0.25) (Q2Qc 0.6) (Q2Qc 4)
         = Ok (cpi, throughput)
         /\ throughput = (1 / cpi)%Qc
         /\ (1 <= cpi)%Qc /\ (0 < throughput)%Qc)
  /\ (exists cpi throughput,
         calculate_with_prediction
           (Q2Qc 0.25) (Q2Qc 0.6) (Q2Qc 4) (Q2Qc 0.5) (Q2Qc 1)
         = Ok (cpi, throughput)
         /\ throughput = (1 / cpi)%Qc
         /\ (1 <= cpi)%Qc /\ (0 < throughput)%Qc).
Proof.
  assert (HPb : (0 <= Q2Qc 0.25 <= 1)%Qc) by (split; vm_compute; discriminate).
  assert (HPt : (0 <= Q2Qc 0.6 <= 1)%Qc) by (split; vm_compute; discriminate).
  assert (HPc : (0 <= Q2Qc 0.5 <= 1)%Qc) by (split; vm_compute; discriminate).
  assert (Hb : (0 <= Q2Qc 4)%Qc) by (vm_compute; discriminate).
  assert (Hc : (0 <= Q2Qc 1)%Qc) by (vm_compute; discriminate).
  split; [exact HPb|]. split; [exact HPt|]. split; [exact HPc|].
  split; [exact Hb|]. split; [exact Hc|].
  exact (proj2 C4_model_result_invariant _ _ _ _ _ HPb HPt HPc Hb Hc).
Defined.

(** ** Perfect and absent prediction *)



(** ** Prediction accuracy *)

(** C10, as amended.  In exact arithmetic, for [Pb >= 0], [Pt >= 0],
    [0 <= c <= b] and [Pc1 <= Pc2], the CPI formula at [Pc2] is at most the
    one at [Pc1]; when [Pc2 <= 1], as for every accuracy that is a
    probability, both calls return, with these CPIs, and the throughput at
    [Pc2] is at least the one at [Pc1].  The floats the program returns
    follow this up to rounding.  With the arguments of part B ([Pb = 0.25],
    [Pt = 0.6], [b = 4], [c] in [0, 1, 2]) the returned cpi falls strictly
    and the returned throughput rises strictly along
    [Pc = 0.00, 0.01, ..., 1.00].  For [Pb] and [Pt] in [0.0, 0.2, ..., 1.0],
    penalties [c <= b] in [0 .. 4] and [Pc1 <= Pc2] in [0.0, 0.2, ..., 1.0],
    the cpi returned at [Pc2] is at most [1e-12] above the one returned at
    [Pc1], and the throughput at most [1e-12] below. *)
Theorem C10_accuracy_monotone :
  (forall Pb Pt b c Pc1 Pc2 : Qc,
      (0 <= Pb)%Qc -> (0 <= Pt)%Qc -> (0 <= c)%Qc -> (c <= b)%Qc ->
      (Pc1 <= Pc2)%Qc ->
      (1 + Pb * ((1 - Pc2) * Pt * b + Pc2 * Pt * c)
       <= 1 + Pb * ((1 - Pc1) * Pt * b + Pc1 * Pt * c))%Qc
      /\ ((Pc2 <= 1)%Qc ->
          exists cpi1 thr1 cpi2 thr2,
            calculate_with_prediction Pb Pt b Pc1 c = Ok (cpi1, thr1)
            /\ calculate_with_prediction Pb Pt b Pc2 c = Ok (cpi2, thr2)
            /\ cpi1 = (1 + Pb * ((1 - Pc1) * Pt * b + Pc1 * Pt * c))%Qc
            /\ cpi2 = (1 + Pb * ((1 - Pc2) * Pt * b + Pc2 * Pt * c))%Qc
            /\ (cpi2 <= cpi1)%Qc /\ (thr1 <= thr2)%Qc))
  /\ forallb (fun c =>
       Sample.improves_strictly
         (Sample.accuracy_sweep Pb_fixed Pt_fixed b_fixed c (hundredths 101)))
       Sample.c_values
     = true
  /\ forallb (fun Pb => forallb (fun Pt => forallb (fun bc =>
       Sample.improves_within (1 # 1000000000000)
         (Sample.accuracy_sweep Pb Pt (fst bc) (snd bc) Sample.fifths))
       Sample.penalty_pairs) Sample.fifths) Sample.fifths
     = true.
Proof.
  split; [|split; vm_compute; reflexivity].
  intros Pb Pt b c Pc1 Pc2 HPb HPt Hc Hcb HPc.
  pose proof (ExactModel.cpi_with_prediction_antitone HPb HPt Hcb HPc) as Hmono.
  split; [exact Hmono|].
  intros HPc2.
  assert (H1 : (Pc1 <= 1)%Qc) by exact (Qcle_trans _ _ _ HPc HPc2).
  pose proof (ExactModel.cpi_with_prediction_ge_1_below HPb HPt Hc Hcb H1) as G1.
  pose proof (ExactModel.cpi_with_prediction_ge_1_below HPb HPt Hc Hcb HPc2)
    as G2.
  pose proof (ExactModel.ge_1_pos G1) as P1.
  pose proof (ExactModel.ge_1_pos G2) as P2.
  eexists; eexists; eexists; eexists.
  split; [apply ExactFacts.with_prediction_exact, ExactModel.pos_neq_0, P1|].
  split; [apply ExactFacts.with_prediction_exact, ExactModel.pos_neq_0, P2|].
  split; [reflexivity|]. split; [reflexivity|].
  split; [exact Hmono|].
  apply ExactModel.inv_antitone; assumption.
Qed.

Lemma C10_accuracy_monotone_witness :
  (0 <= Q2Qc 0.25)%Qc /\ (0 <= Q2Qc 0.6)%Qc /\ (0 <= Q2Qc 1)%Qc
  /\ (Q2Qc 1 <= Q2Qc 4)%Qc /\ (Q2Qc 0.4 <= Q2Qc 0.8)%Qc
  /\ (Q2Qc 0.8 <= 1)%Qc
  /\ exists cpi1 thr1 cpi2 thr2,
       calculate_with_prediction
         (Q2Qc 0.25) (Q2Qc 0.6) (Q2Qc 4) (Q2Qc 0.4) (Q2Qc 1) = Ok (cpi1, thr1)
       /\ calculate_with_prediction
            (Q2Qc 0.25) (Q2Qc 0.6) (Q2Qc 4) (Q2Qc 0.8) (Q2Qc 1) = Ok (cpi2, thr2)
       /\ cpi1 = (1 + Q2Qc 0.25 * ((1 - Q2Qc 0.4) * Q2Qc 0.6 * Q2Qc 4
                                   + Q2Qc 0.4 * Q2Qc 0.6 * Q2Qc 1))%Qc
       /\ cpi2 = (1 + Q2Qc 0.25 * ((1 - Q2Qc 0.8) * Q2Qc 0.6 * Q2Qc 4
                                   + Q2Qc 0.8 * Q2Qc 0.6 * Q2Qc 1))%Qc
       /\ (cpi2 <= cpi1)%Qc /\ (thr1 <= thr2)%Qc.
Proof.
  assert (HPb : (0 <= Q2Qc 0.25)%Qc) by (vm_compute; discriminate).
  assert (HPt : (0 <= Q2Qc 0.6)%Qc) by (vm_compute; discriminate).
  assert (Hc : (0 <= Q2Qc 1)%Qc) by (vm_compute; discriminate).
  assert (Hcb : (Q2Qc 1 <= Q2Qc 4)%Qc) by (vm_compute; discriminate).
  assert (HPc : (Q2Qc 0.4 <= Q2Qc 0.8)%Qc) by (vm_compute; discriminate).
  assert (H1 : (Q2Qc 0.8 <= 1)%Qc) by (vm_compute; discriminate).
  split; [exact HPb|]. split; [exact HPt|]. split; [exact Hc|].
  split; [exact Hcb|]. split; [exact HPc|]. split; [exact H1|].
  exact (proj2 (proj1 C10_accuracy_monotone _ _ _ _ _ _ HPb HPt Hc Hcb HPc) H1).
Defined.

(** Beyond [Pc = 1].  The [+] button has no upper limit, so [Pc] can
    exceed [1]; the CPI then keeps falling, through [0], and the
    throughput [1 / cpi] changes sign.  With the constants of part B
    ([Pb = 0.25], [Pt = 0.6], [b = 4]) and [c = 0], raising [Pc] from [2] to
    [3] takes the CPI from [0.4] to [-0.2] and the throughput from [2.5] down
    to [-5], in both arithmetics. *)
Lemma throughput_falls_beyond_one :
  ~ (forall Pb Pt b c Pc1 Pc2 cpi1 thr1 cpi2 thr2 : Qc,
        (0 <= Pb)%Qc -> (0 <= Pt)%Qc -> (0 <= c)%Qc -> (c <= b)%Qc ->
        (Pc1 <= Pc2)%Qc ->
        calculate_with_prediction Pb Pt b Pc1 c = Ok (cpi1, thr1) ->
        calculate_with_prediction Pb Pt b Pc2 c = Ok (cpi2, thr2) ->
        (cpi2 <= cpi1)%Qc /\ (thr1 <= thr2)%Qc)
  /\ (calculate_with_prediction (F := Qc)
        Pb_fixed Pt_fixed b_fixed (of_int 2) (of_int 0)
      = Ok (literal 0.4, literal 2.5)
      /\ calculate_with_prediction (F := Qc)
           Pb_fixed Pt_fixed b_fixed (of_int 3) (of_int 0)
         = Ok (literal (-0.2), literal (-5))
      /\ (Q2Qc (-5) < Q2Qc 2.5)%Qc)
  /\ (exists cpi1 thr1 cpi2 thr2 : Binary64.float,
         calculate_with_prediction
           Pb_fixed Pt_fixed b_fixed (of_int 2) (of_int 0) = Ok (cpi1, thr1)
         /\ calculate_with_prediction
              Pb_fixed Pt_fixed b_fixed (of_int 3) (of_int 0) = Ok (cpi2, thr2)
         /\ cpi1 = literal 0.4 /\ thr1 = literal 2.5
         /\ cpi2 = literal (-0.19999999999999996)
         /\ thr2 = literal (-5.000000000000001)
         /\ ltb thr2 thr1 = true).
Proof.
  assert (E1 : calculate_with_prediction (F := Qc)
                 Pb_fixed Pt_fixed b_fixed (of_int 2) (of_int 0)
               = Ok (literal 0.4, literal 2.5)) by qc_eval.
  assert (E2 : calculate_with_prediction (F := Qc)
                 Pb_fixed Pt_fixed b_fixed (of_int 3) (of_int 0)
               = Ok (literal (-0.2), literal (-5))) by qc_eval.
  split; [|split].
  - intros Hall.
    assert (L : (literal 2.5 <= literal (-5))%Qc).
    { refine (proj2 (Hall Pb_fixed Pt_fixed b_fixed (of_int 0)
                          (of_int 2) (of_int 3) _ _ _ _ _ _ _ _ _ E1 E2));
        vm_compute; discriminate. }
    vm_compute in L. apply L. reflexivity.
  - split; [exact E1|]. split; [exact E2|]. vm_compute. reflexivity.
  - eexists; eexists; eexists; eexists.
    split; [vm_compute; reflexivity|].
    split; [vm_compute; reflexivity|].
    repeat split; vm_compute; reflexivity.
Qed.

(** C10, as stated, on the floats the program returns.  The two products
    [(1 - Pc) * Pt * b] and [Pc * Pt * c] are rounded separately, so a
    returned cpi can rise with [Pc] in its last place.  With [Pb = 0.25],
    [Pt = 0.6] and [b = c = 3], all in the domain of the claim, the exact cpi
    is [1.45] for every [Pc]; CPython returns [1.45] at [Pc = 0.0] and
    [1.4500000000000002] at [Pc = 0.08], and the throughput falls from
    [0.6896551724137931] to [0.689655172413793]. *)
Lemma C10_cpi_rises_in_last_place :
  ~ (forall (Pb Pt b c Pc1 Pc2 cpi1 thr1 cpi2 thr2 : Binary64.float),
        leb (of_int 0) Pb = true -> leb (of_int 0) Pt = true ->
        leb (of_int 0) c = true -> leb c b = true ->
        leb Pc1 Pc2 = true ->
        calculate_with_prediction Pb Pt b Pc1 c = Ok (cpi1, thr1) ->
        calculate_with_prediction Pb Pt b Pc2 c = Ok (cpi2, thr2) ->
        leb cpi2 cpi1 = true /\ leb thr1 thr2 = true)
  /\ (exists cpi1 thr1 cpi2 thr2 : Binary64.float,
         calculate_with_prediction
           (literal 0.25) (literal 0.6) (of_int 3) (literal 0) (of_int 3)
         = Ok (cpi1, thr1)
         /\ calculate_with_prediction
              (literal 0.25) (literal 0.6) (of_int 3) (literal 0.08) (of_int 3)
            = Ok (cpi2, thr2)
         /\ cpi1 = literal 1.45
         /\ cpi2 = literal 1.4500000000000002
         /\ thr1 = literal 0.6896551724137931
         /\ thr2 = literal 0.689655172413793
         /\ ltb cpi1 cpi2 = true
         /\ ltb thr2 thr1 = true).
Proof.
  assert (E : exists cpi1 thr1 cpi2 thr2 : Binary64.float,
             calculate_with_prediction
               (literal 0.25) (literal 0.6) (of_int 3) (literal 0) (of_int 3)
             = Ok (cpi1, thr1)
             /\ calculate_with_prediction
                  (literal 0.25) (literal 0.6) (of_int 3) (literal 0.08)
                  (of_int 3)
                = Ok (cpi2, thr2)
             /\ cpi1 = literal 1.45
             /\ cpi2 = literal 1.4500000000000002
             /\ thr1 = literal 0.6896551724137931
             /\ thr2 = literal 0.689655172413793
             /\ ltb cpi1 cpi2 = true
             /\ ltb thr2 thr1 = true).
  { eexists; eexists; eexists; eexists.
    split; [vm_compute; reflexivity|].
    split; [vm_compute; reflexivity|].
    repeat split; vm_compute; reflexivity. }
  split; [|exact E].
  intros Hall.
  destruct E as (cpi1 & thr1 & cpi2 & thr2 & E1 & E2 & -> & -> & _).
  assert (L : leb (F := Binary64.float)
                (literal 1.4500000000000002) (literal 1.45) = true).
  { refine (proj1 (Hall _ _ _ _ _ _ _ _ _ _ _ _ _ _ _ E1 E2));
      vm_compute; reflexivity. }
  vm_compute in L. discriminate L.
Qed.

(** ** The table loops *)

Lemma Forall2_map_eq (A B : Type) (R : A -> B -> Prop) (f : B -> A)
      (l : list A) (l' : list B) :
  Forall2 R l l' -> (forall x y, R x y -> f y = x) -> map f l' = l.
Proof.
  intros HF Hf. induction HF as [|x y l l' Hxy _ IH]; simpl; [reflexivity|].
  rewrite (Hf _ _ Hxy), IH. reflexivity.
Qed.

Lemma Forall2_Forall_r (A B : Type) (R : A -> B -> Prop) (P : B -> Prop)
      (l : list A) (l' : list B) :
  Forall2 R l l' -> (forall x y, In x l -> R x y -> P y) -> Forall P l'.
Proof.
  intros HF HP. induction HF as [|x y l l' Hxy _ IH]; constructor.
  - apply (HP x); [left; reflexivity | exact Hxy].
  - apply IH. intros x' y' Hin. apply HP. right. exact Hin.
Qed.

Lemma Forall2_weaken_in (A B : Type) (R R' : A -> B -> Prop)
      (l : list A) (l' : list B) :
  Forall2 R l l' -> (forall x y, In x l -> R x y -> R' x y) -> Forall2 R' l l'.
Proof.
  intros HF HR. induction HF as [|x y l l' Hxy _ IH]; constructor.
  - apply HR; [left; reflexivity | exact Hxy].
  - apply IH. intros x' y' Hin. apply HR. right. exact Hin.
Qed.


Section Tables.

Context {F : Type} `{PyFloat F}.

Lemma row_a_ok (b Pt Pb : F) (r : RowA) :
  ('(cpi, throughput) <- calculate_no_prediction Pb Pt b ;;
   Ok {| ra_Pb := Pb; ra_Pt := round_to Pt 3; ra_b := b;
         ra_CPI := round_to cpi 3;
         ra_Throughput := round_to throughput 3 |}) = Ok r ->
  appended_a b Pt Pb r.
Proof.
  destruct (calculate_no_prediction Pb Pt b) as [[cpi thr]|e] eqn:E; simpl;
    [|discriminate].
  intros E'. injection E' as <-. exists cpi, thr. simpl. auto 10.
Qed.

Lemma row_b_ok (c Pc : F) (r : RowB) :
  ('(cpi, throughput) <-
      calculate_with_prediction Pb_fixed Pt_fixed b_fixed Pc c ;;
   Ok {| rb_Pc := Pc; rb_Pt := Pt_fixed; rb_b := b_fixed; rb_c := c;
         rb_CPI := round_to cpi 3;
         rb_Throughput := round_to throughput 3 |}) = Ok r ->
  appended_b c Pc r.
Proof.
  destruct (calculate_with_prediction _ _ _ Pc c) as [[cpi thr]|e] eqn:E;
    simpl; [|discriminate].
  intros E'. injection E' as <-. exists cpi, thr. simpl. auto 10.
Qed.

(** Part B: one group of rows per [c], one row per [Pc] inside a group. *)
Lemma populate_part_b_groups (c_values Pc_values : list F) (rows : list RowB) :
  populate_part_b c_values Pc_values = Ok rows ->
  exists groups,
    rows = concat groups
    /\ Forall2 (fun c g => Forall2 (appended_b c) Pc_values g)
               c_values groups.
Proof.
  unfold populate_part_b. intros E.
  apply concatM_groups in E. destruct E as (groups & HF & ->).
  exists groups. split; [reflexivity|].
  eapply Forall2_weaken_in; [exact HF|].
  intros c g _ Eg. cbv beta in Eg.
  apply mapM_Forall2 in Eg.
  eapply Forall2_weaken_in; [exact Eg|].
  intros Pc r _. apply row_b_ok.
Qed.

Lemma populate_part_b_total (c_values Pc_values : list F) :
  (forall c Pc, In c c_values -> In Pc Pc_values ->
      exists r, calculate_with_prediction Pb_fixed Pt_fixed b_fixed Pc c
                = Ok r) ->
  exists rows, populate_part_b c_values Pc_values = Ok rows.
Proof.
  intros Hall. unfold populate_part_b.
  apply concatM_total. intros c Hc.
  apply mapM_total. intros Pc HPc.
  destruct (Hall c Pc Hc HPc) as ([cpi thr] & ->). simpl. eauto.
Qed.

(** Part A: one group of rows per [(b, Pt)], in the order of the two outer
    loops, one row per [Pb] inside a group. *)
Lemma populate_part_a_groups (b_values Pt_values Pb_values : list F)
      (rows : list RowA) :
  populate_part_a b_values Pt_values Pb_values = Ok rows ->
  exists groups,
    rows = concat groups
    /\ Forall2 (fun bPt g =>
                  Forall2 (appended_a (fst bPt) (snd bPt)) Pb_values g)
               (list_prod b_values Pt_values) groups.
Proof.
  unfold populate_part_a. intros E.
  apply concatM_groups in E. destruct E as (outer & HF & ->).
  assert (HG : Forall2
                 (fun b rows_b =>
                    exists gs,
                      rows_b = concat gs
                      /\ Forall2 (fun Pt g =>
                                    Forall2 (appended_a b Pt) Pb_values g)
                                 Pt_values gs)
                 b_values outer).
  { eapply Forall2_weaken_in; [exact HF|].
    intros b rows_b _ Eb. cbv beta in Eb.
    apply concatM_groups in Eb. destruct Eb as (gs & HFb & ->).
    exists gs. split; [reflexivity|].
    eapply Forall2_weaken_in; [exact HFb|].
    intros Pt g _ Eg. cbv beta in Eg. apply mapM_Forall2 in Eg.
    eapply Forall2_weaken_in; [exact Eg|].
    intros Pb r _. apply row_a_ok. }
  clear HF. induction HG as [|b rows_b bs outer (gs & -> & Hgs) _ IH].
  - exists []. split; [reflexivity | constructor].
  - destruct IH as (groups & Ec & HFg).
    exists (gs ++ groups). split.
    + simpl. rewrite concat_app, Ec. reflexivity.
    + simpl. apply Forall2_app; [|exact HFg].
      clear - Hgs. induction Hgs; simpl; constructor; auto.
Qed.

Lemma populate_part_a_total (b_values Pt_values Pb_values : list F) :
  (forall b Pt Pb, In b b_values -> In Pt Pt_values -> In Pb Pb_values ->
      exists r, calculate_no_prediction Pb Pt b = Ok r) ->
  exists rows, populate_part_a b_values Pt_values Pb_values = Ok rows.
Proof.
  intros Hall. unfold populate_part_a.
  apply concatM_total. intros b Hb.
  apply concatM_total. intros Pt HPt.
  apply mapM_total. intros Pb HPb.
  destruct (Hall b Pt Pb Hb HPt HPb) as ([cpi thr] & ->). simpl. eauto.
Qed.

End Tables.

(** C6.  In any arithmetic, when every model call of the sweep returns, the
    table loops return [m * n] rows for axes of [m] and [n] values, in the
    order of the nesting: the rows are the concatenation of one group per
    value of the outer axis, in order, and the inner-axis column of every
    group is the whole inner axis, unchanged.  Part B nests [c] outside [Pc];
    part A nests [b] outside [Pt] outside [Pb].  In exact arithmetic every
    model call returns when the swept values are in the expected domain. *)
Theorem C6_table_size_and_order :
  (forall (F : Type) (num : PyFloat F),
      (forall c_values Pc_values : list F,
          (forall c Pc, In c c_values -> In Pc Pc_values ->
              exists r, calculate_with_prediction Pb_fixed Pt_fixed b_fixed Pc c
                        = Ok r) ->
          exists rows groups,
            populate_part_b c_values Pc_values = Ok rows
            /\ length rows = (length c_values * length Pc_values)%nat
            /\ rows = concat groups
            /\ Forall2 (fun c g =>
                          map rb_Pc g = Pc_values
                          /\ Forall (fun r => rb_c r = c) g)
                       c_values groups)
      /\ (forall b_values Pt_values Pb_values : list F,
             (forall b Pt Pb,
                 In b b_values -> In Pt Pt_values -> In Pb Pb_values ->
                 exists r, calculate_no_prediction Pb Pt b = Ok r) ->
             exists rows groups,
               populate_part_a b_values Pt_values Pb_values = Ok rows
               /\ length rows
                  = (length b_values * length Pt_values * length Pb_values)%nat
               /\ rows = concat groups
               /\ Forall2 (fun bPt g =>
                             map ra_Pb g = Pb_values
                             /\ Forall (fun r =>
                                          ra_b r = fst bPt
                                          /\ ra_Pt r = round_to (snd bPt) 3)
                                       g)
                          (list_prod b_values Pt_values) groups))
  /\ (forall c_values Pc_values : list Qc,
         Forall (fun c => (0 <= c)%Qc) c_values ->
         Forall (fun Pc => (0 <= Pc <= 1)%Qc) Pc_values ->
         forall c Pc, In c c_values -> In Pc Pc_values ->
           exists r, calculate_with_prediction Pb_fixed Pt_fixed b_fixed Pc c
                     = Ok r)
  /\ (forall b_values Pt_values Pb_values : list Qc,
         Forall (fun b => (0 <= b)%Qc) b_values ->
         Forall (fun Pt => (0 <= Pt)%Qc) Pt_values ->
         Forall (fun Pb => (0 <= Pb)%Qc) Pb_values ->
         forall b Pt Pb, In b b_values -> In Pt Pt_values -> In Pb Pb_values ->
           exists r, calculate_no_prediction Pb Pt b = Ok r).
Proof.
  split; [|split].
  - intros F num. split.
    + intros c_values Pc_values Hall.
      destruct (populate_part_b_total _ _ Hall) as (rows & E).
      destruct (populate_part_b_groups _ _ E) as (groups & -> & HF).
      exists (concat groups), groups.
      split; [exact E|]. split; [|split; [reflexivity|]].
      * eapply concat_length_uniform; [exact HF|].
        intros c g Hg. symmetry. eapply Forall2_length_eq. exact Hg.
      * eapply Forall2_weaken_in; [exact HF|].
        intros c g _ Hg. split.
        -- eapply Forall2_map_eq; [exact Hg|].
           intros Pc r (cpi & thr & Hr). tauto.
        -- eapply Forall2_Forall_r; [exact Hg|].
           intros Pc r _ (cpi & thr & Hr). tauto.
    + intros b_values Pt_values Pb_values Hall.
      destruct (populate_part_a_total _ _ _ Hall) as (rows & E).
      destruct (populate_part_a_groups _ _ _ E) as (groups & -> & HF).
      exists (concat groups), groups.
      split; [exact E|]. split; [|split; [reflexivity|]].
      * rewrite <- length_prod.
        eapply concat_length_uniform; [exact HF|].
        intros bPt g Hg. symmetry. eapply Forall2_length_eq. exact Hg.
      * eapply Forall2_weaken_in; [exact HF|].
        intros [b Pt] g _ Hg. simpl in Hg |- *. split.
        -- eapply Forall2_map_eq; [exact Hg|].
           intros Pb r (cpi & thr & Hr). tauto.
        -- eapply Forall2_Forall_r; [exact Hg|].
           intros Pb r _ (cpi & thr & Hr). tauto.
  - intros c_values Pc_values Hcs HPcs c Pc Hc HPc.
    rewrite Forall_forall in Hcs, HPcs.
    pose proof (Hcs c Hc) as Hc0. destruct (HPcs Pc HPc) as (HPc0 & HPc1).
    assert (HPb : (0 <= Pb_fixed)%Qc) by (vm_compute; discriminate).
    assert (HPt : (0 <= Pt_fixed)%Qc) by (vm_compute; discriminate).
    assert (Hb : (0 <= b_fixed)%Qc) by (vm_compute; discriminate).
    pose proof (ExactModel.cpi_with_prediction_ge_1
                  HPb HPt Hb Hc0 HPc0 HPc1) as Hge.
    eexists. apply ExactFacts.with_prediction_exact.
    apply ExactModel.pos_neq_0, ExactModel.ge_1_pos, Hge.
  - intros b_values Pt_values Pb_values Hbs HPts HPbs b Pt Pb Hb HPt HPb.
    rewrite Forall_forall in Hbs, HPts, HPbs.
    pose proof (ExactModel.cpi_no_prediction_ge_1
                  (HPbs Pb HPb) (HPts Pt HPt) (Hbs b Hb)) as Hge.
    eexists. apply ExactFacts.no_prediction_exact.
    apply ExactModel.pos_neq_0, ExactModel.ge_1_pos, Hge.
Qed.

Lemma C6_table_size_and_order_witness :
  (forall c Pc : Binary64.float,
      In c [of_int 0; of_int 1; of_int 2] ->
      In Pc [literal 0.4; literal 0.8] ->
      exists r, calculate_with_prediction Pb_fixed Pt_fixed b_fixed Pc c = Ok r)
  /\ exists rows groups,
       populate_part_b (F := Binary64.float)
         [of_int 0; of_int 1; of_int 2] [literal 0.4; literal 0.8] = Ok rows
       /\ length rows = (3 * 2)%nat
       /\ rows = concat groups
       /\ Forall2 (fun c g =>
                     map rb_Pc g = [literal 0.4; literal 0.8]
                     /\ Forall (fun r => rb_c r = c) g)
                  [of_int 0; of_int 1; of_int 2] groups.
Proof.
  assert (Hall : forall c Pc : Binary64.float,
             In c [of_int 0; of_int 1; of_int 2] ->
             In Pc [literal 0.4; literal 0.8] ->
             exists r,
               calculate_with_prediction Pb_fixed Pt_fixed b_fixed Pc c = Ok r).
  { intros c Pc [<-|[<-|[<-|[]]]] [<-|[<-|[]]];
      eexists; vm_compute; reflexivity. }
  split; [exact Hall|].
  exact (proj1 (proj1 C6_table_size_and_order _ Binary64.binary64_float)
           _ _ Hall).
Defined.

(** ** What reaches the plot *)

Section Plots.

Context {F : Type} `{PyFloat F}.





End Plots.

(** ** Rounding to decimals *)

Module DecimalFacts.
Import Decimal.

Lemma round_half_even_cases (q : Q) :
  let f := Qfloor q in
  (q - inject_Z f < 1 # 2 /\ round_half_even q = f)
  \/ (q - inject_Z f == 1 # 2 /\ (round_half_even q = f \/ round_half_even q = (f + 1)%Z)
      /\ round_half_even q = (if Z.even f then f else (f + 1)%Z))
  \/ (1 # 2 < q - inject_Z f /\ round_half_even q = (f + 1)%Z).
Proof.
  intros f. unfold round_half_even. fold f.
  destruct (Qcompare (q - inject_Z f) (1 # 2)) eqn:E.
  - right; left. apply Qeq_alt in E. split; [exact E|].
    split; [destruct (Z.even f); auto | reflexivity].
  - left. apply Qlt_alt in E. auto.
  - right; right. apply Qgt_alt in E. auto.
Qed.

Lemma floor_bounds (q : Q) : inject_Z (Qfloor q) <= q /\ q < inject_Z (Qfloor q) + 1.
Proof.
  split; [apply Qfloor_le|].
  pose proof (Qlt_floor q) as L. rewrite inject_Z_plus in L. exact L.
Qed.


Lemma round_half_even_mono (p q : Q) :
  p <= q -> (round_half_even p <= round_half_even q)%Z.
Proof.
  intros Hpq.
  pose proof (Qfloor_resp_le _ _ Hpq) as Hf.
  pose proof (floor_bounds p) as [Lp Up].
  pose proof (floor_bounds q) as [Lq Uq].
  destruct (Z.eq_dec (Qfloor p) (Qfloor q)) as [Ef|Nf].
  - destruct (round_half_even_cases p) as [(Hp & Rp)|[(Hp & _ & Rp)|(Hp & Rp)]];
    destruct (round_half_even_cases q) as [(Hq & Rq)|[(Hq & _ & Rq)|(Hq & Rq)]];
    rewrite Rp, Rq; rewrite <- ?Ef in *; try lia;
      try (destruct (Z.even (Qfloor p)); lia);
      try (exfalso; lra).
  - assert (Qfloor p + 1 <= Qfloor q)%Z by lia.
    assert (round_half_even p <= Qfloor p + 1)%Z.
    { destruct (round_half_even_cases p) as [(_ & ->)|[(_ & [->| ->] & _)|(_ & ->)]]; lia. }
    assert (Qfloor q <= round_half_even q)%Z.
    { destruct (round_half_even_cases q) as [(_ & ->)|[(_ & [->| ->] & _)|(_ & ->)]]; lia. }
    lia.
Qed.

Lemma pow10_pos (n : Z) : 0 < pow10 n.
Proof. unfold pow10. apply Qpower_0_lt. reflexivity. Qed.

Lemma round_to_mono (p q : Q) (n : Z) : p <= q -> round_to p n <= round_to q n.
Proof.
  intros Hpq. unfold round_to.
  pose proof (pow10_pos n) as Hp.
  apply Qmult_le_compat_r.
  - rewrite <- Zle_Qle. apply round_half_even_mono.
    apply Qmult_le_compat_r; [exact Hpq | apply Qlt_le_weak; exact Hp].
  - apply Qlt_le_weak. apply Qinv_lt_0_compat. exact Hp.
Qed.


End DecimalFacts.

(** ** Ranges and the last item of a list *)

Section RangeFacts.

Lemma range_succ (n : Z) : (0 <= n)%Z -> range (n + 1) = range n ++ [n].
Proof.
  intros Hn. unfold range.
  replace (Z.to_nat (n + 1)) with (S (Z.to_nat n)) by lia.
  rewrite seq_S, map_app. simpl. rewrite Z2Nat.id by exact Hn. reflexivity.
Qed.

Lemma range_length (n : Z) : length (range n) = Z.to_nat n.
Proof. unfold range. rewrite length_map, length_seq. reflexivity. Qed.

Lemma range_head (n : Z) : (0 <= n)%Z -> exists t, range (n + 1) = 0%Z :: t.
Proof.
  intros Hn. unfold range.
  replace (Z.to_nat (n + 1)) with (S (Z.to_nat n)) by lia.
  simpl. eauto.
Qed.

Lemma range_nonpos (n : Z) : (n <= 0)%Z -> range n = [].
Proof.
  intros Hn. unfold range. replace (Z.to_nat n) with 0%nat by lia. reflexivity.
Qed.

Lemma last_item_snoc (A : Type) (l : list A) (x : A) : last_item (l ++ [x]) = Ok x.
Proof. unfold last_item. rewrite rev_unit. reflexivity. Qed.


End RangeFacts.

(** ** The axes in exact arithmetic *)

Module ExactAxis.
Import Exact.
Local Open Scope Qc_scope.

Lemma Qc_int_floor (x : Qc) : 0 <= x -> Qc_int x = Qfloor x.
Proof.
  intros Hx. unfold Qc_int, Qfloor. destruct x as [[n d] c]. simpl in *.
  apply Z.quot_div_nonneg; [|lia].
  unfold Qcle, Qle in Hx. simpl in Hx. lia.
Qed.

Lemma this_of_int (z : Z) : (this (of_int z) == inject_Z z)%Q.
Proof. exact (Qred_correct _). Qed.

Lemma Qc_round_to_mono (x y : Qc) (n : Z) :
  x <= y -> round_to x n <= round_to y n.
Proof.
  intros Hxy. unfold Qcle in *.
  change (Qred (Decimal.round_to x n) <= Qred (Decimal.round_to y n))%Q.
  rewrite !Qred_correct. apply DecimalFacts.round_to_mono. exact Hxy.
Qed.

Lemma quotient_nonneg (mn mx res : Qc) : 0 < res -> mn <= mx -> 0 <= (mx - mn) / res.
Proof.
  intros Hres Hle. unfold Qcle, Qclt in *. rewrite QcOrder.this_div, QcOrder.this_minus.
  change (this 0) with 0%Q in *.
  apply Qle_shift_div_l; [exact Hres|]. lra.
Qed.

Lemma step_below_max (mn mx res : Qc) :
  0 < res -> mn + res * of_int (Qfloor (this ((mx - mn) / res)%Qc)) <= mx.
Proof.
  intros Hres.
  pose proof (Qfloor_le (this ((mx - mn) / res)%Qc)) as Hf.
  pose proof (QcOrder.this_div (mx - mn) res) as Eq.
  rewrite QcOrder.this_minus in Eq.
  unfold Qcle, Qclt in *.
  rewrite QcOrder.this_plus, QcOrder.this_mult, this_of_int.
  change (this 0) with 0%Q in *.
  set (k := inject_Z (Qfloor (this ((mx - mn) / res)%Qc))) in *.
  set (q := this ((mx - mn) / res)) in *.
  clearbody k q.
  assert (Hk : (k * this res <= this mx - this mn)%Q).
  { apply (Qmult_le_compat_r _ _ (this res)) in Hf; [|lra].
    rewrite Eq in Hf.
    setoid_replace ((this mx - this mn) / this res * this res)%Q
      with (this mx - this mn)%Q in Hf by (field; lra).
    exact Hf. }
  lra.
Qed.

Lemma step_zero (mn res : Qc) : add mn (mul res (of_int 0)) = mn.
Proof.
  change (mn + res * 0 = mn). ring.
Qed.

(** The axis of part A on a range with [res > 0] and [mn <= mx]. *)
Lemma rounded_values_valid (mn mx res : Qc) :
  0 < res -> mn <= mx ->
  let n := Qfloor (this ((mx - mn) / res)%Qc) in
  let generated :=
    map (fun i => round_to (add mn (mul res (of_int i))) 10)
        (range (n + 1)) in
  let last := round_to (add mn (mul res (of_int n))) 10 in
  (0 <= n)%Z
  /\ length generated = Z.to_nat (n + 1)
  /\ hd_error generated = Some (round_to mn 10)
  /\ last_item generated = Ok last
  /\ rounded_values mn mx res
     = Ok (generated ++ (if ltb last mx then [mx] else [])).
Proof.
  intros Hres Hle n generated last.
  pose proof (quotient_nonneg Hres Hle) as Hq.
  assert (Hn : (0 <= n)%Z).
  { unfold n. change 0%Z with (Qfloor 0). apply Qfloor_resp_le. exact Hq. }
  assert (Hlast : last_item generated = Ok last).
  { unfold generated. rewrite range_succ by exact Hn.
    rewrite map_app. cbn [map]. apply last_item_snoc. }
  split; [exact Hn|]. split; [|split; [|split; [exact Hlast|]]].
  - unfold generated. rewrite length_map, range_length. reflexivity.
  - unfold generated. destruct (range_head Hn) as (t & ->).
    cbn [map hd_error]. rewrite step_zero. reflexivity.
  - unfold rounded_values.
    rewrite ExactFacts.truediv_exact by (apply ExactModel.pos_neq_0; exact Hres).
    cbn [Py.bind int_of Qc_float].
    change (@sub Qc _) with Qcminus.
    rewrite (Qc_int_floor Hq). fold n. fold generated.
    rewrite Hlast. cbn [Py.bind].
    destruct (ltb last mx); [reflexivity|]. rewrite app_nil_r. reflexivity.
Qed.


Lemma hd_error_app_l (A : Type) (l l' : list A) (x : A) :
  hd_error l = Some x -> hd_error (l ++ l') = Some x.
Proof. destruct l; simpl; [discriminate | auto]. Qed.

Lemma hd_error_In (A : Type) (l : list A) (x : A) : hd_error l = Some x -> In x l.
Proof. destruct l; simpl; [discriminate|]. intros E. injection E as ->. auto. Qed.

Lemma last_item_In (A : Type) (l : list A) (x : A) : last_item l = Ok x -> In x l.
Proof.
  unfold last_item. destruct (rev l) as [|y t] eqn:E; [discriminate|].
  intros E'. injection E' as ->. apply in_rev. rewrite E. left. reflexivity.
Qed.

(** On a range whose ends are unchanged by the rounding, the axis of part A
    starts at [mn] and ends at [mx]. *)
Lemma rounded_values_endpoints (mn mx res : Qc) :
  0 < res -> mn <= mx ->
  round_to mn 10 = mn -> round_to mx 10 = mx ->
  exists l,
    rounded_values mn mx res = Ok l
    /\ hd_error l = Some mn /\ last_item l = Ok mx
    /\ In mn l /\ In mx l.
Proof.
  intros Hres Hle Rmn Rmx.
  destruct (rounded_values_valid Hres Hle) as (Hn & Hlen & Hhd & Hlast & E).
  set (n := Qfloor (this ((mx - mn) / res))) in *.
  set (generated :=
         map (fun i => round_to (add mn (mul res (of_int i))) 10)
             (range (n + 1))) in *.
  set (last := round_to (add mn (mul res (of_int n))) 10) in *.
  rewrite Rmn in Hhd.
  assert (Hle_last : last <= mx).
  { rewrite <- Rmx. apply Qc_round_to_mono.
  apply (step_below_max mn mx Hres). }
  assert (goal :
            hd_error (generated ++ (if ltb last mx then [mx] else []))
            = Some mn
            /\ last_item (generated ++ (if ltb last mx then [mx] else []))
               = Ok mx).
  { split; [apply hd_error_app_l; exact Hhd|].
    destruct (ltb last mx) eqn:L.
    - apply last_item_snoc.
    - rewrite app_nil_r, Hlast. f_equal.
      apply Qcle_antisym; [exact Hle_last|].
      apply ExactFacts.ltb_ge. exact L. }
  destruct goal as (G1 & G2).
  eexists. split; [exact E|]. split; [exact G1|]. split; [exact G2|].
  split; [eapply hd_error_In; exact G1 | eapply last_item_In; exact G2].
Qed.

Lemma Qc_int_le_m1 (q : Qc) : q <= - (1) -> (Qc_int q <= -1)%Z.
Proof.
  intros Hq. unfold Qc_int. destruct q as [[n d] c].
  unfold Qcle, Qle in Hq. simpl in Hq |- *.
  assert (Hn : (n <= - Zpos d)%Z) by lia.
  transitivity (Z.quot (- Zpos d) (Zpos d)).
  - apply Z.quot_le_mono; lia.
  - rewrite Z.quot_opp_l by lia. rewrite Z.quot_same by lia. lia.
Qed.

Lemma Qc_int_gt_m1 (q : Qc) : - (1) < q -> (0 <= Qc_int q)%Z.
Proof.
  intros Hq. unfold Qc_int. destruct q as [[n d] c].
  unfold Qclt, Qlt in Hq. simpl in Hq |- *.
  assert (Hn : (- Zpos d < n)%Z) by lia.
  destruct (Z.le_gt_cases 0 n) as [Hpos|Hneg].
  - apply Z.quot_pos; lia.
  - replace n with (- (- n))%Z by lia.
    rewrite Z.quot_opp_l by lia. rewrite Z.quot_small by lia. lia.
Qed.


Lemma rounded_values_empty (mn mx res : Qc) :
  res <> 0 -> (mx - mn) / res <= - (1) ->
  rounded_values mn mx res = Raise IndexError.
Proof.
  intros Hres Hq. unfold rounded_values.
  rewrite ExactFacts.truediv_exact by exact Hres.
  cbn [Py.bind int_of Qc_float].
  change (@sub Qc _) with Qcminus.
  pose proof (Qc_int_le_m1 Hq) as Hn.
  rewrite range_nonpos by lia. reflexivity.
Qed.

Lemma rounded_values_returns (mn mx res : Qc) :
  res <> 0 -> - (1) < (mx - mn) / res ->
  exists l, rounded_values mn mx res = Ok l.
Proof.
  intros Hres Hq. unfold rounded_values.
  rewrite ExactFacts.truediv_exact by exact Hres.
  cbn [Py.bind int_of Qc_float].
  change (@sub Qc _) with Qcminus.
  pose proof (Qc_int_gt_m1 Hq) as Hn.
  rewrite range_succ by exact Hn. rewrite map_app. cbn [map].
  rewrite last_item_snoc. cbn [Py.bind].
  match goal with |- context [if ?b then _ else _] => destruct b end; eauto.
Qed.

End ExactAxis.

(** ** Three decimals, and the axis of part B, in exact arithmetic *)

Module ExactRounding.
Import Exact.
Local Open Scope Qc_scope.


Lemma of_int_den (i : Z) : Qden (this (of_int i)) = 1%positive.
Proof.
  change (Qden (Qred (inject_Z i)) = 1%positive).
  rewrite Qred_identity; [reflexivity|].
  simpl. apply Z.gcd_1_r.
Qed.

(** The axis of part B stays at or below [mx], and reaches it only when the
    resolution divides [mx - mn]. *)
Lemma Pc_values_valid (mn mx res : Qc) :
  0 < res -> mn <= mx ->
  let n := Qfloor (this ((mx - mn) / res)%Qc) in
  (0 <= n)%Z
  /\ Pc_values mn mx res
     = Ok (map (fun i => add mn (mul res (of_int i))) (range (n + 1))).
Proof.
  intros Hres Hle n.
  pose proof (ExactAxis.quotient_nonneg Hres Hle) as Hq.
  assert (Hn : (0 <= n)%Z).
  { unfold n. change 0%Z with (Qfloor 0). apply Qfloor_resp_le. exact Hq. }
  split; [exact Hn|].
  unfold Pc_values.
  rewrite ExactFacts.truediv_exact by (apply ExactModel.pos_neq_0; exact Hres).
  cbn [Py.bind int_of Qc_float].
  change (@sub Qc _) with Qcminus.
  rewrite (ExactAxis.Qc_int_floor Hq). reflexivity.
Qed.

Lemma Pc_values_misses_max (mn mx res : Qc) :
  0 < res -> mn <= mx ->
  (forall i : Z, (mx - mn) / res <> of_int i) ->
  exists l, Pc_values mn mx res = Ok l /\ ~ In mx l.
Proof.
  intros Hres Hle Hnot.
  destruct (Pc_values_valid Hres Hle) as (_ & E).
  eexists. split; [exact E|].
  intros HIn. apply in_map_iff in HIn. destruct HIn as (i & Ei & _).
  apply (Hnot i).
  change (mn + res * of_int i = mx) in Ei. rewrite <- Ei.
  assert (Hr : res <> 0) by (apply ExactModel.pos_neq_0; exact Hres).
  field. exact Hr.
Qed.

End ExactRounding.

(** ** The [+] and [-] buttons in exact arithmetic *)

Module ButtonFacts.
Import Exact.
Local Open Scope Qc_scope.

Lemma round_half_even_Z (z : Z) : Decimal.round_half_even (inject_Z z) = z.
Proof.
  unfold Decimal.round_half_even. rewrite Qfloor_Z.
  assert (E : (inject_Z z - inject_Z z ?= 1 # 2)%Q = Lt).
  { apply Qlt_alt.
    setoid_replace (inject_Z z - inject_Z z)%Q with 0%Q by ring.
    reflexivity. }
  rewrite E. reflexivity.
Qed.

Lemma round_half_even_comp (p q : Q) :
  (p == q)%Q -> Decimal.round_half_even p = Decimal.round_half_even q.
Proof.
  intros E. unfold Decimal.round_half_even.
  rewrite (Qfloor_comp _ _ E).
  assert (E' : (p - inject_Z (Qfloor q) == q - inject_Z (Qfloor q))%Q)
    by (rewrite E; reflexivity).
  rewrite (Qcompare_comp _ _ E' (1 # 2) (1 # 2) (Qeq_refl _)). reflexivity.
Qed.

(** A multiple of [1/100] is unchanged by rounding to ten decimals. *)
Lemma round_to_10_of_hundredths (k : Z) :
  (Decimal.round_to (k # 100) 10 == k # 100)%Q.
Proof.
  unfold Decimal.round_to.
  change (Decimal.pow10 10) with (10000000000 # 1)%Q.
  assert (E : ((k # 100) * (10000000000 # 1) == inject_Z (k * 100000000))%Q).
  { unfold Qeq, Qmult, inject_Z. simpl. lia. }
  rewrite (round_half_even_comp E), round_half_even_Z.
  unfold Qeq, Qdiv, Qmult, Qinv, inject_Z. simpl. lia.
Qed.

Lemma round_to_2_hundredths (x : Qc) :
  exists k : Z, round_to x 2 = Q2Qc (k # 100).
Proof.
  exists (Decimal.round_half_even (this x * Decimal.pow10 2)).
  apply Qc_is_canon.
  change (Qred (Decimal.round_to x 2)
          == Qred (Decimal.round_half_even (this x * Decimal.pow10 2) # 100))%Q.
  rewrite !Qred_correct. unfold Decimal.round_to.
  set (k := Decimal.round_half_even (this x * Decimal.pow10 2)).
  change (Decimal.pow10 2) with (100 # 1)%Q.
  unfold Qeq, Qdiv, Qmult, Qinv, inject_Z. simpl. lia.
Qed.

Lemma round_to_comp (p q : Q) (n : Z) :
  (p == q)%Q -> (Decimal.round_to p n == Decimal.round_to q n)%Q.
Proof.
  intros E. unfold Decimal.round_to.
  assert (E' : (p * Decimal.pow10 n == q * Decimal.pow10 n)%Q)
    by (rewrite E; reflexivity).
  rewrite (round_half_even_comp E'). reflexivity.
Qed.

(** What [round(x, 2)] returns is unchanged by [round(., 10)]. *)
Lemma round_10_after_2 (x : Qc) : round_to (round_to x 2) 10 = round_to x 2.
Proof.
  destruct (round_to_2_hundredths x) as (k & ->).
  apply Qc_is_canon.
  change (Qred (Decimal.round_to (Qred (k # 100)) 10) == Qred (k # 100))%Q.
  rewrite Qred_correct.
  rewrite (round_to_comp 10 (Qred_correct (k # 100))).
  rewrite round_to_10_of_hundredths. symmetry. apply Qred_correct.
Qed.

(** Button presses keep a variable on the grid of [round(., 10)]. *)
Lemma pressed_on_grid (initial v : Qc) :
  round_to initial 10 = initial -> pressed initial v -> round_to v 10 = v.
Proof.
  intros Hinit Hp. induction Hp as [|v Hp IH|v Hp IH].
  - exact Hinit.
  - unfold increment. apply round_10_after_2.
  - unfold decrement.
    destruct (leb (of_int 0) (round_to (sub v default_step) 2)).
    + apply round_10_after_2.
    + exact IH.
Qed.

End ButtonFacts.

(** ** The rounding policy of the table and of the plot *)

Section Records.

Context {F : Type} `{PyFloat F}.

Lemma populate_part_a_rows (b_values Pt_values Pb_values : list F)
      (rows : list RowA) :
  populate_part_a b_values Pt_values Pb_values = Ok rows ->
  Forall (fun r =>
            exists b Pt Pb,
              In b b_values /\ In Pt Pt_values /\ In Pb Pb_values
              /\ appended_a b Pt Pb r)
         rows.
Proof.
  intros E. apply populate_part_a_groups in E.
  destruct E as (groups & -> & HF).
  apply Forall_concat.
  eapply Forall2_Forall_r; [exact HF|].
  intros [b Pt] g HbPt Hg. apply in_prod_iff in HbPt. simpl in Hg.
  eapply Forall2_Forall_r; [exact Hg|].
  intros Pb r HPb Hr. exists b, Pt, Pb. tauto.
Qed.

Lemma populate_part_b_rows (c_values Pc_values : list F) (rows : list RowB) :
  populate_part_b c_values Pc_values = Ok rows ->
  Forall (fun r =>
            exists c Pc,
              In c c_values /\ In Pc Pc_values /\ appended_b c Pc r)
         rows.
Proof.
  intros E. apply populate_part_b_groups in E.
  destruct E as (groups & -> & HF).
  apply Forall_concat.
  eapply Forall2_Forall_r; [exact HF|].
  intros c g Hc Hg.
  eapply Forall2_Forall_r; [exact Hg|].
  intros Pc r HPc Hr. exists c, Pc. tauto.
Qed.

End Records.



(** ** Axis construction *)

(** The axes of part A.  In exact arithmetic, on a range with
    [0 < resolution] and [min <= max], [Pb_values] (and [Pt_values], the same
    statements) generates the [n + 1] values [round(min + resolution * i, 10)]
    for [i = 0 .. n], [n = floor((max - min) / resolution)], and appends [max]
    when the last generated value is below it; when rounding to ten decimals
    leaves [min] and [max] unchanged, the list starts at [min] and ends at
    [max]. *)
Lemma Pb_values_axis :
  forall mn mx res : Qc,
    (0 < res)%Qc -> (mn <= mx)%Qc ->
    let n := Qfloor (this ((mx - mn) / res)%Qc) in
    let generated :=
      map (fun i => round_to (add mn (mul res (of_int i))) 10)
          (range (n + 1)) in
    let last := round_to (add mn (mul res (of_int n))) 10 in
    ((0 <= n)%Z
     /\ length generated = Z.to_nat (n + 1)
     /\ Pb_values mn mx res
        = Ok (generated ++ (if ltb last mx then [mx] else [])))
    /\ (round_to mn 10 = mn -> round_to mx 10 = mx ->
        exists l,
          Pb_values mn mx res = Ok l
          /\ hd_error l = Some mn /\ last_item l = Ok mx
          /\ In mn l /\ In mx l).
Proof.
  intros mn mx res Hres Hle n generated last. split.
  - destruct (ExactAxis.rounded_values_valid Hres Hle) as (Hn & Hlen & _ & _ & E).
    split; [exact Hn|]. split; [exact Hlen | exact E].
  - intros Rmn Rmx. exact (ExactAxis.rounded_values_endpoints Hres Hle Rmn Rmx).
Qed.

(** The axes of part A on the ranges the widgets can hold.  In exact
    arithmetic, whatever buttons were pressed, with a positive resolution and
    [min <= max], [Pb_values] and [Pt_values] start at [min] and end at
    [max]. *)
Lemma Pb_values_of_widgets :
  forall mn mx res : Qc,
    (pressed (literal 0.2) mn /\ pressed (literal 0.3) mx)
    \/ (pressed (literal 0.5) mn /\ pressed (literal 0.7) mx) ->
    (0 < res)%Qc -> (mn <= mx)%Qc ->
    exists l,
      Pb_values mn mx res = Ok l
      /\ hd_error l = Some mn /\ last_item l = Ok mx
      /\ In mn l /\ In mx l.
Proof.
  intros mn mx res Hpressed Hres Hle.
  assert (G : round_to mn 10 = mn /\ round_to mx 10 = mx).
  { destruct Hpressed as [(Hmn & Hmx)|(Hmn & Hmx)]; split;
      (eapply ButtonFacts.pressed_on_grid; [|eassumption]);
      apply Qc_is_canon; vm_compute; reflexivity. }
  destruct G as (Gmn & Gmx).
  exact (ExactAxis.rounded_values_endpoints Hres Hle Gmn Gmx).
Qed.

(** The axis of part A on the range [(0, 1, 0.3)]:
    [[0, 0.3, 0.6, 0.9, 1.0]] in both arithmetics. *)
Lemma Pb_values_spec_example :
  Pb_values (F := Qc) (literal 0) (literal 1) (literal 0.3)
  = Ok [literal 0; literal 0.3; literal 0.6; literal 0.9; literal 1]
  /\ Pb_values (F := Binary64.float) (literal 0) (literal 1) (literal 0.3)
     = Ok [literal 0; literal 0.3; literal 0.6; literal 0.9; literal 1].
Proof.
  split; [qc_eval | vm_compute; reflexivity].
Qed.

(** C3, on the axis of part B.  [Pc_values] is built without the rounding and
    without the appended maximum that [Pb_values] and [Pt_values] have.  In
    exact arithmetic, on a range with [0 < resolution] and [min <= max] whose
    resolution does not divide [max - min], it returns the unrounded values
    [min + resolution * i] and [max] is not among them.  On [(0, 1, 0.3)] it
    is [[0, 0.3, 0.6, 0.9]] in exact arithmetic and
    [[0.0, 0.3, 0.6, 0.8999999999999999]] in binary64.  In binary64, with
    values the widgets offer ([Pc Min = 0.2], [Pc Max = 0.3], resolution
    [0.01]), the quotient [(0.3 - 0.2) / 0.01] is [9.999999999999998], the
    axis has ten values, the second is [0.21000000000000002], the last is
    [0.29000000000000004], and [0.3] is not among them; [Pb_values] on the
    same range has eleven values, the second is [0.21] and the last is
    [0.3]. *)
Theorem C3_Pc_axis_stops_short :
  (forall mn mx res : Qc,
      (0 < res)%Qc -> (mn <= mx)%Qc ->
      (forall i : Z, ((mx - mn) / res)%Qc <> of_int i) ->
      exists l,
        Pc_values mn mx res = Ok l
        /\ l = map (fun i => add mn (mul res (of_int i)))
                   (range (Qfloor (this ((mx - mn) / res)%Qc) + 1))
        /\ ~ In mx l)
  /\ Pc_values (F := Qc) (literal 0) (literal 1) (literal 0.3)
     = Ok [literal 0; literal 0.3; literal 0.6; literal 0.9]
  /\ Pc_values (F := Binary64.float) (literal 0) (literal 1) (literal 0.3)
     = Ok [literal 0; literal 0.3; literal 0.6; literal 0.8999999999999999]
  /\ (exists Pcs Pbs : list Binary64.float,
         truediv (sub (literal 0.3) (literal 0.2)) (literal 0.01)
         = Ok (literal 9.999999999999998)
         /\ Pc_values (literal 0.2) (literal 0.3) (literal 0.01) = Ok Pcs
         /\ length Pcs = 10%nat
         /\ nth_error Pcs 1 = Some (literal 0.21000000000000002)
         /\ last_item Pcs = Ok (literal 0.29000000000000004)
         /\ ~ In (literal 0.3) Pcs
         /\ Pb_values (literal 0.2) (literal 0.3) (literal 0.01) = Ok Pbs
         /\ length Pbs = 11%nat
         /\ nth_error Pbs 1 = Some (literal 0.21)
         /\ last_item Pbs = Ok (literal 0.3)).
Proof.
  split; [|split; [qc_eval | split; [vm_compute; reflexivity|]]].
  - intros mn mx res Hres Hle Hnot.
    destruct (ExactRounding.Pc_values_valid Hres Hle) as (_ & E).
    destruct (ExactRounding.Pc_values_misses_max Hres Hle Hnot)
      as (l & El & Hl).
    exists l. split; [exact El|]. split; [|exact Hl].
    rewrite E in El. injection El as <-. reflexivity.
  - eexists; eexists.
    split; [vm_compute; reflexivity|].
    split; [vm_compute; reflexivity|].
    split; [reflexivity|].
    split; [vm_compute; reflexivity|].
    split; [vm_compute; reflexivity|].
    split.
    { intros HIn. vm_compute in HIn.
      repeat (destruct HIn as [HIn|HIn]; [discriminate HIn|]). exact HIn. }
    split; [vm_compute; reflexivity|].
    split; [reflexivity|].
    split; vm_compute; reflexivity.
Qed.

Lemma C3_Pc_axis_stops_short_witness :
  (0 < Q2Qc 0.3)%Qc /\ (Q2Qc 0 <= Q2Qc 1)%Qc
  /\ (forall i : Z, ((Q2Qc 1 - Q2Qc 0) / Q2Qc 0.3)%Qc <> of_int i)
  /\ exists l,
       Pc_values (Q2Qc 0) (Q2Qc 1) (Q2Qc 0.3) = Ok l
       /\ l = map (fun i => add (Q2Qc 0) (mul (Q2Qc 0.3) (of_int i)))
                  (range (Qfloor (this ((Q2Qc 1 - Q2Qc 0) / Q2Qc 0.3)%Qc) + 1))
       /\ ~ In (Q2Qc 1) l.
Proof.
  assert (Hres : (0 < Q2Qc 0.3)%Qc) by (vm_compute; reflexivity).
  assert (Hle : (Q2Qc 0 <= Q2Qc 1)%Qc) by (vm_compute; discriminate).
  assert (Hnot : forall i : Z,
             ((Q2Qc 1 - Q2Qc 0) / Q2Qc 0.3)%Qc <> of_int i).
  { intros i E.
    pose proof (f_equal (fun q : Qc => Qden (this q)) E) as D.
    cbv beta in D. rewrite ExactRounding.of_int_den in D.
    vm_compute in D. discriminate D. }
  split; [exact Hres|]. split; [exact Hle|]. split; [exact Hnot|].
  exact (proj1 C3_Pc_axis_stops_short _ _ _ Hres Hle Hnot).
Defined.

(** ** What decides the outcome of an axis: the truncated quotient *)

Section AxisOutcome.

Context {F : Type} `{PyFloat F}.

Lemma rounded_values_by_quotient (mn mx res q : F) :
  truediv (sub mx mn) res = Ok q ->
  (forall e, int_of q = Raise e -> rounded_values mn mx res = Raise e)
  /\ (forall n, int_of q = Ok n -> (n <= -1)%Z ->
      rounded_values mn mx res = Raise IndexError)
  /\ (forall n, int_of q = Ok n -> (0 <= n)%Z ->
      exists l, rounded_values mn mx res = Ok l /\ l <> []).
Proof.
  intros Eq. unfold rounded_values. rewrite Eq. cbn [Py.bind].
  split; [|split].
  - intros e ->. reflexivity.
  - intros n -> Hn. cbn [Py.bind].
    rewrite range_nonpos by lia. reflexivity.
  - intros n -> Hn. cbn [Py.bind].
    rewrite range_succ by exact Hn. rewrite map_app. cbn [map].
    rewrite last_item_snoc. cbn [Py.bind].
    match goal with |- context [if ?b then _ else _] => destruct b end;
      eexists; (split; [reflexivity|]); intros E;
      repeat (apply app_eq_nil in E; destruct E as (E & ?)); discriminate.
Qed.

Lemma Pc_values_by_quotient (mn mx res q : F) :
  truediv (sub mx mn) res = Ok q ->
  (forall e, int_of q = Raise e -> Pc_values mn mx res = Raise e)
  /\ (forall n, int_of q = Ok n -> (n <= -1)%Z -> Pc_values mn mx res = Ok [])
  /\ (forall n, int_of q = Ok n -> (0 <= n)%Z ->
      exists l, Pc_values mn mx res = Ok l
                /\ Z.of_nat (length l) = (n + 1)%Z).
Proof.
  intros Eq. unfold Pc_values. rewrite Eq. cbn [Py.bind].
  split; [|split].
  - intros e ->. reflexivity.
  - intros n -> Hn. cbn [Py.bind]. rewrite range_nonpos by lia. reflexivity.
  - intros n -> Hn. cbn [Py.bind]. eexists. split; [reflexivity|].
    rewrite length_map, range_length. lia.
Qed.

End AxisOutcome.

Module Binary64Int.

Import Binary64.

Lemma pow2_pos (e : Z) : (0 < Qpower (2 # 1) e)%Q.
Proof. apply Qpower_0_lt. reflexivity. Qed.

Lemma pow2_neg (p : positive) :
  (Qpower (2 # 1) (Zneg p) == / inject_Z (2 ^ Zpos p))%Q.
Proof.
  change (Zneg p) with (- Zpos p)%Z. rewrite Qpower_opp.
  rewrite (Zpower_Qpower 2 (Zpos p)) by lia. reflexivity.
Qed.

Lemma pow2_nonneg (e : Z) :
  (0 <= e)%Z -> (Qpower (2 # 1) e == inject_Z (2 ^ e))%Q.
Proof. intros He. rewrite (Zpower_Qpower 2 e) by exact He. reflexivity. Qed.

(** The magnitude [int] keeps of a finite float: [floor (m * 2^e)]. *)
Lemma magnitude_ge_1 (m : positive) (e : Z) :
  (1 <= match e with
        | Zneg p => Z.shiftr (Zpos m) (Zpos p)
        | _ => Z.shiftl (Zpos m) e
        end)%Z
  <-> (1 <= inject_Z (Zpos m) * Qpower (2 # 1) e)%Q.
Proof.
  destruct e as [|p|p].
  - change (Qpower (2 # 1) 0) with 1%Q. rewrite Qmult_1_r.
    rewrite Z.shiftl_0_r. change 1%Q with (inject_Z 1). rewrite <- Zle_Qle.
    reflexivity.
  - rewrite Z.shiftl_mul_pow2 by lia. rewrite pow2_nonneg by lia.
    rewrite <- inject_Z_mult. change 1%Q with (inject_Z 1).
    rewrite <- Zle_Qle. reflexivity.
  - rewrite Z.shiftr_div_pow2 by lia. rewrite pow2_neg.
    assert (P : (0 < 2 ^ Zpos p)%Z) by (apply Z.pow_pos_nonneg; lia).
    assert (PQ : (0 < inject_Z (2 ^ Zpos p))%Q)
      by (change 0%Q with (inject_Z 0); rewrite <- Zlt_Qlt; exact P).
    split.
    + intros Hk.
      assert (Hm : (2 ^ Zpos p <= Zpos m)%Z).
      { destruct (Z.le_gt_cases (2 ^ Zpos p) (Zpos m)) as [L|L]; [exact L|].
        rewrite Z.div_small in Hk by lia. lia. }
      apply Qle_shift_div_l; [exact PQ|]. rewrite Qmult_1_l.
      rewrite <- Zle_Qle. exact Hm.
    + intros Hq.
      assert (Hm : (2 ^ Zpos p <= Zpos m)%Z).
      { rewrite Zle_Qle.
        setoid_replace (inject_Z (Zpos m))
          with (inject_Z (Zpos m) * / inject_Z (2 ^ Zpos p)
                * inject_Z (2 ^ Zpos p))%Q
          by (field; intros E; rewrite E in PQ; exact (Qlt_irrefl _ PQ)).
        setoid_replace (inject_Z (2 ^ Zpos p))
          with (1 * inject_Z (2 ^ Zpos p))%Q at 1 by ring.
        apply Qmult_le_compat_r; [exact Hq | apply Qlt_le_weak; exact PQ]. }
      apply Z.div_le_lower_bound; lia.
Qed.

(** [int(q)] of a float: what it raises, and when the integer is at most
    [-1], by the value of [q]. *)
Lemma int_of_float_spec (q : float) :
  match q with
  | S754_nan => int_of q = Raise ValueError
  | S754_infinity _ => int_of q = Raise OverflowError
  | _ => exists n, int_of q = Ok n
                   /\ ((n <= -1)%Z <-> (to_Q q <= -1 # 1)%Q)
  end.
Proof.
  destruct q as [s|s| |s m e]; try reflexivity.
  - exists 0%Z. split; [reflexivity|]. split; [lia|].
    intros Hq. exfalso. revert Hq. apply Qlt_not_le. reflexivity.
  - eexists. split; [reflexivity|].
    pose proof (magnitude_ge_1 m e) as M.
    pose proof (pow2_pos e) as P.
    set (k := match e with
              | Zneg p => Z.shiftr (Zpos m) (Zpos p)
              | _ => Z.shiftl (Zpos m) e
              end) in *.
    assert (Hk : (0 <= k)%Z).
    { unfold k. destruct e; [apply Z.shiftl_nonneg|apply Z.shiftl_nonneg
                             |apply Z.shiftr_nonneg]; lia. }
    unfold to_Q. destruct s; cbn [cond_Zopp].
    + change (inject_Z (- Zpos m)) with (- inject_Z (Zpos m))%Q.
      set (x := inject_Z (Zpos m)) in *. set (y := Qpower (2 # 1) e) in *.
      clearbody x y k. split.
      * intros Hn. assert (H1 : (1 <= k)%Z) by lia. apply M in H1.
        setoid_replace (- x * y)%Q with (- (x * y))%Q by ring.
        set (z := (x * y)%Q) in *. clearbody z. lra.
      * intros Hq.
        setoid_replace (- x * y)%Q with (- (x * y))%Q in Hq by ring.
        assert (H1 : (1 <= x * y)%Q).
        { set (z := (x * y)%Q) in *. clearbody z. lra. }
        apply M in H1. lia.
    + split; [lia|]. intros Hq. exfalso.
      assert (Hx : (0 < inject_Z (Zpos m))%Q) by reflexivity.
      pose proof (Qmult_lt_0_compat _ _ Hx P) as Hxy.
      set (z := (inject_Z (Zpos m) * Qpower (2 # 1) e)%Q) in *. clearbody z.
      lra.
Qed.

End Binary64Int.

Module Binary64Axis.

Import Binary64.

Lemma truediv_b64 (x y : float) :
  eqb y (of_int 0) = false -> truediv x y = Ok (div x y).
Proof. apply truediv_nonzero. Qed.

(** The axes of part A in binary64, by the computed quotient. *)
Lemma rounded_values_b64 (mn mx res : float) :
  eqb res (of_int 0) = false ->
  match div (sub mx mn) res with
  | S754_nan => rounded_values mn mx res = Raise ValueError
  | S754_infinity _ => rounded_values mn mx res = Raise OverflowError
  | q =>
      if Qle_bool (to_Q q) (-1 # 1)
      then rounded_values mn mx res = Raise IndexError
      else exists l, rounded_values mn mx res = Ok l /\ l <> []
  end.
Proof.
  intros Hres.
  pose proof (@truediv_b64 (sub mx mn) res Hres) as Eq.
  destruct (@rounded_values_by_quotient _ _ mn mx res _ Eq) as (R & E & L).
  pose proof (Binary64Int.int_of_float_spec (div (sub mx mn) res)) as I.
  destruct (div (sub mx mn) res) as [s|s| |s m e] eqn:Dq.
  - destruct I as (n & In & Hn).
    destruct (Qle_bool _ _) eqn:C.
    + apply Qle_bool_iff in C. apply (E n In). apply Hn. exact C.
    + apply (L n In).
      destruct (Z.le_gt_cases n (-1)) as [Hle|Hgt]; [|lia].
      apply Hn in Hle. apply Qle_bool_iff in Hle. congruence.
  - apply R. exact I.
  - apply R. exact I.
  - destruct I as (n & In & Hn).
    destruct (Qle_bool _ _) eqn:C.
    + apply Qle_bool_iff in C. apply (E n In). apply Hn. exact C.
    + apply (L n In).
      destruct (Z.le_gt_cases n (-1)) as [Hle|Hgt]; [|lia].
      apply Hn in Hle. apply Qle_bool_iff in Hle. congruence.
Qed.

(** The axis of part B on a computed quotient at most [-1]. *)
Lemma Pc_values_b64_empty (mn mx res q : float) :
  truediv (sub mx mn) res = Ok q -> (to_Q q <= -1 # 1)%Q ->
  exists n, int_of q = Ok n /\ (n <= -1)%Z.
Proof.
  intros _ Hq.
  pose proof (Binary64Int.int_of_float_spec q) as I.
  destruct q as [s|s| |s m e];
    try (exfalso; revert Hq; apply Qlt_not_le; reflexivity).
  destruct I as (n & In & Hn). exists n. split; [exact In|]. apply Hn. exact Hq.
Qed.

End Binary64Axis.

(** C7, as amended.  The axis statements check nothing.  In any arithmetic a
    resolution equal to [0] raises [ZeroDivisionError], on every axis.  With
    any other resolution the outcome is decided by [int] of the quotient
    [(max - min) / resolution] as the floats give it: in binary64 a quotient
    that is not a number raises [ValueError], an infinite one
    [OverflowError], a quotient at most [-1] makes the axes of part A raise
    [IndexError] (the comprehension is empty and its last item is read), and
    every other quotient gives a list that is not empty.  [(1, 0, 0.1)]
    raises [IndexError] and [(0, 1, 0)] raises [ZeroDivisionError]; on
    [(0.3, 0.2, 0.1)] the computed quotient is [-0.9999999999999998] and the
    axis is [[0.3]]. *)
Theorem C7_axis_failures :
  (forall (F : Type) (num : PyFloat F) (mn mx res : F),
      eqb res (of_int 0) = true ->
      Pb_values mn mx res = Raise ZeroDivisionError
      /\ Pc_values mn mx res = Raise ZeroDivisionError)
  /\ (forall mn mx res : Binary64.float,
         eqb res (of_int 0) = false ->
         match div (sub mx mn) res with
         | S754_nan => Pb_values mn mx res = Raise ValueError
         | S754_infinity _ => Pb_values mn mx res = Raise OverflowError
         | q =>
             if Qle_bool (Binary64.to_Q q) (-1 # 1)
             then Pb_values mn mx res = Raise IndexError
             else exists l, Pb_values mn mx res = Ok l /\ l <> []
         end)
  /\ Pb_values (F := Binary64.float) (literal 1) (literal 0) (literal 0.1)
     = Raise IndexError
  /\ Pb_values (F := Binary64.float) (literal 0) (literal 1) (literal 0)
     = Raise ZeroDivisionError
  /\ div (F := Binary64.float)
       (sub (literal 0.2) (literal 0.3)) (literal 0.1)
     = literal (-0.9999999999999998)
  /\ Pb_values (F := Binary64.float) (literal 0.3) (literal 0.2) (literal 0.1)
     = Ok [literal 0.3].
Proof.
  split; [|split; [|repeat split; vm_compute; reflexivity]].
  - intros F num mn mx res E. unfold Pb_values, rounded_values, Pc_values.
    rewrite (truediv_zero _ _ E). split; reflexivity.
  - exact Binary64Axis.rounded_values_b64.
Qed.

Lemma C7_axis_failures_witness :
  (eqb (F := Binary64.float) (literal 0) (of_int 0) = true
   /\ Pb_values (F := Binary64.float) (literal 0.2) (literal 0.3) (literal 0)
      = Raise ZeroDivisionError
   /\ Pc_values (F := Binary64.float) (literal 0.2) (literal 0.3) (literal 0)
      = Raise ZeroDivisionError)
  /\ (eqb (F := Binary64.float) (literal 0.1) (of_int 0) = false
      /\ Pb_values (F := Binary64.float)
           (literal 0.8) (literal 0.4) (literal 0.1)
         = Raise IndexError)
  /\ (eqb (F := Binary64.float) (literal (-0.1)) (of_int 0) = false
      /\ exists l,
           Pb_values (F := Binary64.float)
             (literal 0.2) (literal 0.3) (literal (-0.1)) = Ok l
           /\ l <> []).
Proof.
  assert (H0 : eqb (F := Binary64.float) (literal 0) (of_int 0) = true)
    by reflexivity.
  assert (H1 : eqb (F := Binary64.float) (literal 0.1) (of_int 0) = false)
    by reflexivity.
  assert (H2 : eqb (F := Binary64.float) (literal (-0.1)) (of_int 0) = false)
    by reflexivity.
  split; [split; [exact H0|]|split; [split; [exact H1|]|split; [exact H2|]]].
  - exact (proj1 C7_axis_failures _ _ (literal 0.2) (literal 0.3) (literal 0) H0).
  - pose proof (proj1 (proj2 C7_axis_failures)
                  (literal 0.8) (literal 0.4) (literal 0.1) H1) as P.
    exact P.
  - pose proof (proj1 (proj2 C7_axis_failures)
                  (literal 0.2) (literal 0.3) (literal (-0.1)) H2) as P.
    exact P.
Defined.

(** C7, as stated: an inverted range, or a negative resolution, is not always
    rejected.  [(min, max, resolution) = (0.3, 0.2, 0.5)] has [max < min] and
    yields [[0.3]]; [(0, 0.1, -0.5)] has a negative resolution and yields
    [[0, 0.1]]; on the axis of part B the inverted range [(1, 0, 0.1)] yields
    the empty list.  The two ranges the specification names fail with
    [IndexError] and with [ZeroDivisionError]. *)
Lemma C7_invalid_range_accepted :
  ~ (forall mn mx res : Qc,
        (res <= 0)%Qc \/ (mx < mn)%Qc ->
        exists e, Pb_values mn mx res = Raise e)
  /\ ((Q2Qc 0.2 < Q2Qc 0.3)%Qc
   /\ Pb_values (F := Qc) (literal 0.3) (literal 0.2) (literal 0.5)
      = Ok [literal 0.3])
  /\ (ltb (literal 0.2 : Binary64.float) (literal 0.3) = true
      /\ Pb_values (F := Binary64.float)
           (literal 0.3) (literal 0.2) (literal 0.5)
         = Ok [literal 0.3])
  /\ ((Q2Qc (-0.5) <= 0)%Qc
      /\ Pb_values (F := Qc) (literal 0) (literal 0.1) (literal (-0.5))
         = Ok [literal 0; literal 0.1])
  /\ Pc_values (F := Qc) (literal 1) (literal 0) (literal 0.1) = Ok []
  /\ Pc_values (F := Binary64.float) (literal 1) (literal 0) (literal 0.1)
     = Ok []
  /\ Pb_values (F := Binary64.float) (literal 1) (literal 0) (literal 0.1)
     = Raise IndexError
  /\ Pb_values (F := Binary64.float) (literal 0) (literal 1) (literal 0)
     = Raise ZeroDivisionError.
Proof.
  assert (E : Pb_values (F := Qc) (literal 0.3) (literal 0.2) (literal 0.5)
              = Ok [literal 0.3]) by qc_eval.
  split.
  { intros Hall.
    destruct (Hall (literal 0.3) (literal 0.2) (literal 0.5)) as (e & He).
    - right. vm_compute. reflexivity.
    - rewrite E in He. discriminate He. }
  split; [split; [vm_compute; reflexivity | exact E]|].
  split; [split; vm_compute; reflexivity|].
  split; [split; [vm_compute; discriminate | qc_eval]|].
  split; [qc_eval|].
  repeat split; vm_compute; reflexivity.
Qed.

(** * Further properties of the program *)

(** ** The graph and the table of one calculation *)

Section Outcomes.

Variables A B C : Type.

Lemma same_outcome_bind (D E : Type) (related : D -> E -> Prop)
      (m : Py.result A) (k1 : A -> Py.result D) (k2 : A -> Py.result E) :
  (forall a, m = Ok a -> same_outcome related (k1 a) (k2 a)) ->
  same_outcome related (Py.bind m k1) (Py.bind m k2).
Proof.
  destruct m as [a|e]; simpl; intros Hk; [apply Hk; reflexivity | reflexivity].
Qed.

(** A loop that appends one item per step, beside a loop that appends a
    group per step. *)
Lemma mapM_concatM_same_outcome (related : B -> list C -> Prop)
      (f : A -> Py.result B) (h : A -> Py.result (list C)) (l : list A) :
  (forall x, In x l -> same_outcome related (f x) (h x)) ->
  same_outcome
    (fun bs cs => exists groups, cs = concat groups /\ Forall2 related bs groups)
    (mapM f l) (concatM h l).
Proof.
  induction l as [|x t IH]; intros Hx.
  - simpl. exists []. split; [reflexivity | constructor].
  - pose proof (Hx x (or_introl eq_refl)) as H0.
    assert (IH' := IH (fun y Hy => Hx y (or_intror Hy))). clear IH.
    simpl. destruct (f x) as [b|e1], (h x) as [g|e2]; simpl in H0 |- *;
      try contradiction; [|exact H0].
    destruct (mapM f t) as [bs|e1], (concatM h t) as [cs|e2]; simpl in IH' |- *;
      try contradiction; [|exact IH'].
    destruct IH' as (groups & -> & HF).
    exists (g :: groups). split; [reflexivity | constructor; assumption].
Qed.

Lemma concatM_concatM_same_outcome (related : B -> list C -> Prop)
      (f : A -> Py.result (list B)) (h : A -> Py.result (list C)) (l : list A) :
  (forall x, In x l ->
     same_outcome
       (fun bs cs => exists groups, cs = concat groups /\ Forall2 related bs groups)
       (f x) (h x)) ->
  same_outcome
    (fun bs cs => exists groups, cs = concat groups /\ Forall2 related bs groups)
    (concatM f l) (concatM h l).
Proof.
  induction l as [|x t IH]; intros Hx.
  - simpl. exists []. split; [reflexivity | constructor].
  - pose proof (Hx x (or_introl eq_refl)) as H0.
    assert (IH' := IH (fun y Hy => Hx y (or_intror Hy))). clear IH.
    simpl. destruct (f x) as [b|e1], (h x) as [g|e2]; simpl in H0 |- *;
      try contradiction; [|exact H0].
    destruct (concatM f t) as [bs|e1], (concatM h t) as [cs|e2];
      simpl in IH' |- *; try contradiction; [|exact IH'].
    destruct H0 as (g1 & -> & HF1). destruct IH' as (g2 & -> & HF2).
    exists (g1 ++ g2). split.
    + rewrite concat_app. reflexivity.
    + apply Forall2_app; assumption.
Qed.

(** A comprehension whose items are built from the results of the calls. *)
Lemma mapM_bind_combine (f : A -> Py.result B) (k : A -> B -> Py.result C)
      (g : A -> B -> C) (l : list A) :
  (forall x y, k x y = Ok (g x y)) ->
  mapM (fun x => Py.bind (f x) (k x)) l
  = Py.bind (mapM f l)
            (fun ys => Ok (map (fun p => g (fst p) (snd p)) (combine l ys))).
Proof.
  intros Hk. induction l as [|x t IH]; [reflexivity|].
  simpl. destruct (f x) as [y|e]; simpl; [|reflexivity].
  rewrite Hk, IH. simpl. destruct (mapM f t) as [ys|e]; reflexivity.
Qed.

End Outcomes.

Lemma map_fst_combine (A B : Type) (l : list A) (l' : list B) :
  length l = length l' -> map fst (combine l l') = l.
Proof.
  revert l'; induction l as [|x t IH]; intros [|y t'] E; simpl in *;
    try discriminate; [reflexivity|].
  f_equal. apply IH. congruence.
Qed.

Lemma map_snd_combine (A B : Type) (l : list A) (l' : list B) :
  length l = length l' -> map snd (combine l l') = l'.
Proof.
  revert l'; induction l as [|x t IH]; intros [|y t'] E; simpl in *;
    try discriminate; [reflexivity|].
  f_equal. apply IH. congruence.
Qed.

Section GraphAndTable.

Context {F : Type} `{PyFloat F}.


Lemma y_value_round (y : YAxis) (v : F * F) :
  y_value y (round_to (fst v) 3, round_to (snd v) 3)
  = round_to (y_value y v) 3.
Proof. destruct y; reflexivity. Qed.

Lemma line_rows_a_inner (y : YAxis) (b Pt : F) (style : LineStyle)
      (Pb_values : list F) :
  same_outcome (line_rows_a y)
    (values <- mapM (fun Pb => calculate_no_prediction Pb Pt b) Pb_values ;;
     Ok {| pa_x := Pb_values;
           pa_y := map (y_value y) values;
           pa_Pt := Pt;  pa_b := b;  pa_style := style |})
    (mapM (fun Pb =>
       '(cpi, throughput) <- calculate_no_prediction Pb Pt b ;;
       Ok {| ra_Pb := Pb;
             ra_Pt := round_to Pt 3;
             ra_b := b;
             ra_CPI := round_to cpi 3;
             ra_Throughput := round_to throughput 3 |})
       Pb_values).
Proof.
  rewrite (mapM_bind_combine
             (fun Pb => calculate_no_prediction Pb Pt b)
             (fun Pb (v : F * F) =>
                let '(cpi, throughput) := v in
                Ok {| ra_Pb := Pb; ra_Pt := round_to Pt 3; ra_b := b;
                      ra_CPI := round_to cpi 3;
                      ra_Throughput := round_to throughput 3 |})
             (fun Pb (v : F * F) =>
                {| ra_Pb := Pb; ra_Pt := round_to Pt 3; ra_b := b;
                   ra_CPI := round_to (fst v) 3;
                   ra_Throughput := round_to (snd v) 3 |}))
    by (intros x [cpi thr]; reflexivity).
  destruct (mapM (fun Pb => calculate_no_prediction Pb Pt b) Pb_values)
    as [values|e] eqn:E; simpl; [|reflexivity].
  assert (L : length Pb_values = length values)
    by (eapply Forall2_length_eq, mapM_Forall2; exact E).
  unfold line_rows_a. cbn [pa_x pa_y pa_b pa_Pt]. split; [|split].
  - rewrite map_map. cbn [ra_Pb]. apply map_fst_combine. exact L.
  - rewrite <- (map_snd_combine _ _ L) at 2. rewrite !map_map.
    apply map_ext. intros [Pb v]. cbn [ra_CPI ra_Throughput fst snd].
    apply y_value_round.
  - apply Forall_map. apply Forall_forall. intros p _.
    cbn [ra_b ra_Pt]. auto.
Qed.


Lemma plot_lines_a_populate_part_a (y : YAxis)
      (b_values Pt_values Pb_values : list F) :
  same_outcome (lines_rows_a y)
    (plot_lines_a y b_values Pt_values Pb_values)
    (populate_part_a b_values Pt_values Pb_values).
Proof.
  unfold plot_lines_a, populate_part_a, lines_rows_a.
  apply concatM_concatM_same_outcome. intros b _. cbv zeta.
  apply mapM_concatM_same_outcome. intros Pt _.
  apply line_rows_a_inner.
Qed.


Lemma line_rows_b_inner (y : YAxis) (c : F) (Pc_values : list F) :
  same_outcome (line_rows_b y)
    (values <- mapM (fun Pc =>
                 calculate_with_prediction Pb_fixed Pt_fixed b_fixed Pc c)
                 Pc_values ;;
     Ok {| pb_x := Pc_values;  pb_y := map (y_value y) values;  pb_c := c |})
    (mapM (fun Pc =>
       '(cpi, throughput) <-
          calculate_with_prediction Pb_fixed Pt_fixed b_fixed Pc c ;;
       Ok {| rb_Pc := Pc;
             rb_Pt := Pt_fixed;
             rb_b := b_fixed;
             rb_c := c;
             rb_CPI := round_to cpi 3;
             rb_Throughput := round_to throughput 3 |})
       Pc_values).
Proof.
  rewrite (mapM_bind_combine
             (fun Pc => calculate_with_prediction Pb_fixed Pt_fixed b_fixed Pc c)
             (fun Pc (v : F * F) =>
                let '(cpi, throughput) := v in
                Ok {| rb_Pc := Pc; rb_Pt := Pt_fixed; rb_b := b_fixed;
                      rb_c := c; rb_CPI := round_to cpi 3;
                      rb_Throughput := round_to throughput 3 |})
             (fun Pc (v : F * F) =>
                {| rb_Pc := Pc; rb_Pt := Pt_fixed; rb_b := b_fixed;
                   rb_c := c; rb_CPI := round_to (fst v) 3;
                   rb_Throughput := round_to (snd v) 3 |}))
    by (intros x [cpi thr]; reflexivity).
  destruct (mapM (fun Pc =>
              calculate_with_prediction Pb_fixed Pt_fixed b_fixed Pc c)
              Pc_values) as [values|e] eqn:E; simpl; [|reflexivity].
  assert (L : length Pc_values = length values)
    by (eapply Forall2_length_eq, mapM_Forall2; exact E).
  unfold line_rows_b. cbn [pb_x pb_y pb_c]. split; [|split].
  - rewrite map_map. cbn [rb_Pc]. apply map_fst_combine. exact L.
  - rewrite <- (map_snd_combine _ _ L) at 2. rewrite !map_map.
    apply map_ext. intros [Pc v]. cbn [rb_CPI rb_Throughput fst snd].
    apply y_value_round.
  - apply Forall_map. apply Forall_forall. intros p _.
    cbn [rb_c rb_Pt rb_b]. auto.
Qed.

Lemma plot_lines_b_populate_part_b (y : YAxis) (c_values Pc_values : list F) :
  same_outcome (lines_rows_b y)
    (plot_lines_b y c_values Pc_values)
    (populate_part_b c_values Pc_values).
Proof.
  unfold plot_lines_b, populate_part_b, lines_rows_b.
  apply mapM_concatM_same_outcome. intros c _.
  apply line_rows_b_inner.
Qed.

Lemma update_part_a_same_outcome (g : Gui) (all_data : bool) :
  same_outcome (lines_rows_a (y_axis_var_a g))
    (update_graph_part_a g all_data) (update_table_part_a g all_data).
Proof.
  unfold update_graph_part_a, update_table_part_a.
  apply same_outcome_bind. intros [[Pbs Pts] bs] _.
  apply plot_lines_a_populate_part_a.
Qed.

Lemma update_part_b_same_outcome (g : Gui) (all_data : bool) :
  same_outcome (lines_rows_b (y_axis_var_b g))
    (update_graph_part_b g all_data) (update_table_part_b g all_data).
Proof.
  unfold update_graph_part_b, update_table_part_b.
  apply same_outcome_bind. intros [Pcs cs] _.
  apply plot_lines_b_populate_part_b.
Qed.

Lemma lines_rows_a_columns (y : YAxis) (plots : list PlotA) (rows : list RowA) :
  lines_rows_a y plots rows ->
  map ra_Pb rows = concat (map pa_x plots)
  /\ map (fun r => y_value y (ra_CPI r, ra_Throughput r)) rows
     = map (fun v => round_to v 3) (concat (map pa_y plots)).
Proof.
  intros (groups & -> & HF).
  induction HF as [|p g plots groups (Hx & Hy & _) _ (IHx & IHy)];
    [split; reflexivity|].
  cbn [map concat]. rewrite !map_app, Hx, Hy, IHx, IHy.
  split; reflexivity.
Qed.

Lemma lines_rows_b_columns (y : YAxis) (plots : list PlotB) (rows : list RowB) :
  lines_rows_b y plots rows ->
  map rb_Pc rows = concat (map pb_x plots)
  /\ map (fun r => y_value y (rb_CPI r, rb_Throughput r)) rows
     = map (fun v => round_to v 3) (concat (map pb_y plots)).
Proof.
  intros (groups & -> & HF).
  induction HF as [|p g plots groups (Hx & Hy & _) _ (IHx & IHy)];
    [split; reflexivity|].
  cbn [map concat]. rewrite !map_app, Hx, Hy, IHx, IHy.
  split; reflexivity.
Qed.

End GraphAndTable.

(** X1.  The calculate buttons of part A, in any arithmetic.  The button
    raises exactly what the graph update raises; when the graph is drawn, the
    table update returns too, and the table is the graph in numbers: its [Pb]
    column is the x-coordinates of the lines, one line after the other, and
    its column of the plotted quantity is their y-coordinates rounded to three
    decimals. *)
Theorem X1_calc_buttons_a_graph_and_table :
  forall (F : Type) (num : PyFloat F) (g : Gui) (all_data : bool),
    let button := if all_data then calc_all_button_a else calc_button_a in
    (forall e, update_graph_part_a g all_data = Raise e -> button g = Raise e)
    /\ (forall plots,
           update_graph_part_a g all_data = Ok plots ->
           exists rows,
             update_table_part_a g all_data = Ok rows
             /\ button g = Ok (plots, rows)
             /\ map ra_Pb rows = concat (map pa_x plots)
             /\ map (fun r => y_value (y_axis_var_a g)
                                      (ra_CPI r, ra_Throughput r)) rows
                = map (fun v => round_to v 3) (concat (map pa_y plots))).
Proof.
  intros F num g all_data button.
  pose proof (update_part_a_same_outcome g all_data) as S.
  split.
  - intros e E. unfold button, calc_all_button_a, calc_button_a.
    destruct all_data; rewrite E; reflexivity.
  - intros plots E. rewrite E in S.
    destruct (update_table_part_a g all_data) as [rows|e] eqn:T;
      simpl in S; [|contradiction].
    exists rows. split; [reflexivity|]. split.
    + unfold button, calc_all_button_a, calc_button_a.
      destruct all_data; rewrite E, T; reflexivity.
    + apply lines_rows_a_columns. exact S.
Qed.

Lemma X1_calc_buttons_a_graph_and_table_witness :
  exists plots rows,
    calc_all_button_a (F := Binary64.float) initial_gui = Ok (plots, rows)
    /\ map ra_Pb rows = concat (map pa_x plots).
Proof.
  destruct (update_graph_part_a (F := Binary64.float) initial_gui true)
    as [plots|e] eqn:E.
  - destruct (proj2 (@X1_calc_buttons_a_graph_and_table
                       _ _ initial_gui true) plots E)
      as (rows & _ & B & X & _).
    exists plots, rows. split; [exact B | exact X].
  - exfalso. vm_compute in E. discriminate E.
Defined.

(** X2.  The calculate buttons of part B, in any arithmetic: as for part A,
    with the [Pc] column and the lines of part B. *)
Theorem X2_calc_buttons_b_graph_and_table :
  forall (F : Type) (num : PyFloat F) (g : Gui) (all_data : bool),
    let button := if all_data then calc_all_button_b else calc_button_b in
    (forall e, update_graph_part_b g all_data = Raise e -> button g = Raise e)
    /\ (forall plots,
           update_graph_part_b g all_data = Ok plots ->
           exists rows,
             update_table_part_b g all_data = Ok rows
             /\ button g = Ok (plots, rows)
             /\ map rb_Pc rows = concat (map pb_x plots)
             /\ map (fun r => y_value (y_axis_var_b g)
                                      (rb_CPI r, rb_Throughput r)) rows
                = map (fun v => round_to v 3) (concat (map pb_y plots))).
Proof.
  intros F num g all_data button.
  pose proof (update_part_b_same_outcome g all_data) as S.
  split.
  - intros e E. unfold button, calc_all_button_b, calc_button_b.
    destruct all_data; rewrite E; reflexivity.
  - intros plots E. rewrite E in S.
    destruct (update_table_part_b g all_data) as [rows|e] eqn:T;
      simpl in S; [|contradiction].
    exists rows. split; [reflexivity|]. split.
    + unfold button, calc_all_button_b, calc_button_b.
      destruct all_data; rewrite E, T; reflexivity.
    + apply lines_rows_b_columns. exact S.
Qed.

Lemma X2_calc_buttons_b_graph_and_table_witness :
  exists plots rows,
    calc_button_b (F := Binary64.float) initial_gui = Ok (plots, rows)
    /\ map rb_Pc rows = concat (map pb_x plots).
Proof.
  destruct (update_graph_part_b (F := Binary64.float) initial_gui false)
    as [plots|e] eqn:E.
  - destruct (proj2 (@X2_calc_buttons_b_graph_and_table
                       _ _ initial_gui false) plots E)
      as (rows & _ & B & X & _).
    exists plots, rows. split; [exact B | exact X].
  - exfalso. vm_compute in E. discriminate E.
Defined.


Section OutcomeLoops.

Variables A B C : Type.
Variable related : B -> C -> Prop.

Lemma mapM_same_outcome (f : A -> Py.result B) (h : A -> Py.result C)
      (l : list A) :
  (forall x, In x l -> same_outcome related (f x) (h x)) ->
  same_outcome (Forall2 related) (mapM f l) (mapM h l).
Proof.
  induction l as [|x t IH]; intros Hx; [constructor|].
  pose proof (Hx x (or_introl eq_refl)) as H0.
  assert (IH' := IH (fun y Hy => Hx y (or_intror Hy))). clear IH.
  simpl. destruct (f x) as [b|e1], (h x) as [c|e2]; simpl in H0 |- *;
    try contradiction; [|exact H0].
  destruct (mapM f t) as [bs|e1], (mapM h t) as [cs|e2]; simpl in IH' |- *;
    try contradiction; [|exact IH'].
  constructor; assumption.
Qed.

Lemma concatM_same_outcome (f : A -> Py.result (list B))
      (h : A -> Py.result (list C)) (l : list A) :
  (forall x, In x l -> same_outcome (Forall2 related) (f x) (h x)) ->
  same_outcome (Forall2 related) (concatM f l) (concatM h l).
Proof.
  induction l as [|x t IH]; intros Hx; [constructor|].
  pose proof (Hx x (or_introl eq_refl)) as H0.
  assert (IH' := IH (fun y Hy => Hx y (or_intror Hy))). clear IH.
  simpl. destruct (f x) as [b|e1], (h x) as [c|e2]; simpl in H0 |- *;
    try contradiction; [|exact H0].
  destruct (concatM f t) as [bs|e1], (concatM h t) as [cs|e2];
    simpl in IH' |- *; try contradiction; [|exact IH'].
  apply Forall2_app; assumption.
Qed.

End OutcomeLoops.

Section Toggle.

Context {F : Type} `{PyFloat F}.


Lemma reciprocals_of_values (A : Type) (f : A -> Py.result (F * F))
      (l : list A) (values : list (F * F)) :
  (forall x cpi thr, f x = Ok (cpi, thr) -> thr = div (of_int 1) cpi) ->
  mapM f l = Ok values ->
  reciprocals (map (y_value CPI) values) (map (y_value Throughput) values).
Proof.
  intros Hf E. apply mapM_Forall2 in E. unfold reciprocals.
  induction E as [|x [cpi thr] l values Ex _ IH]; [constructor|].
  cbn [map y_value fst snd]. constructor; [|exact IH].
  eapply Hf. exact Ex.
Qed.

Lemma no_prediction_reciprocal (Pt b Pb cpi thr : F) :
  calculate_no_prediction Pb Pt b = Ok (cpi, thr) -> thr = div (of_int 1) cpi.
Proof. intros E. apply no_prediction_ok_inv in E. apply E. Qed.

Lemma with_prediction_reciprocal (Pb Pt b c Pc cpi thr : F) :
  calculate_with_prediction Pb Pt b Pc c = Ok (cpi, thr) ->
  thr = div (of_int 1) cpi.
Proof. intros E. apply with_prediction_ok_inv in E. apply E. Qed.

Lemma plot_lines_a_toggled (y : YAxis) (b_values Pt_values Pb_values : list F) :
  same_outcome (Forall2 (toggled_a y))
    (plot_lines_a y b_values Pt_values Pb_values)
    (plot_lines_a (toggle_y_axis y) b_values Pt_values Pb_values).
Proof.
  unfold plot_lines_a.
  apply concatM_same_outcome. intros b _. cbv zeta.
  apply mapM_same_outcome. intros Pt _.
  apply same_outcome_bind. intros values E.
  cbn [same_outcome]. unfold toggled_a. cbn [pa_x pa_y pa_Pt pa_b pa_style].
  do 4 (split; [reflexivity|]).
  pose proof (reciprocals_of_values
                (fun Pb => calculate_no_prediction Pb Pt b) Pb_values
                (fun Pb cpi thr => @no_prediction_reciprocal Pt b Pb cpi thr) E)
    as R.
  destruct y; exact R.
Qed.

Lemma plot_lines_b_toggled (y : YAxis) (c_values Pc_values : list F) :
  same_outcome (Forall2 (toggled_b y))
    (plot_lines_b y c_values Pc_values)
    (plot_lines_b (toggle_y_axis y) c_values Pc_values).
Proof.
  unfold plot_lines_b.
  apply mapM_same_outcome. intros c _.
  apply same_outcome_bind. intros values E.
  cbn [same_outcome]. unfold toggled_b. cbn [pb_x pb_y pb_c].
  do 2 (split; [reflexivity|]).
  pose proof (reciprocals_of_values
                (fun Pc => calculate_with_prediction Pb_fixed Pt_fixed b_fixed Pc c)
                Pc_values
                (fun Pc cpi thr =>
                   @with_prediction_reciprocal Pb_fixed Pt_fixed b_fixed c Pc cpi thr)
                E) as R.
  destruct y; exact R.
Qed.

End Toggle.

(** X3.  The toggle button of part A, in any arithmetic.  It flips the
    y-axis variable and changes no other widget, so that pressing it twice
    restores the state and no table update is affected; it redraws the graph
    of the single selection.  The redrawn graph ends as the graph of the
    single selection did before the press: the same exception, or the same
    lines, with the same x-coordinates, labels and styles, the throughput
    values being the quotients [1 / cpi] of the cpi values. *)
Theorem X3_y_axis_button_a_redraw :
  forall (F : Type) (num : PyFloat F) (g : Gui),
    y_axis_var_a (fst (y_axis_button_a g)) = toggle_y_axis (y_axis_var_a g)
    /\ fst (y_axis_button_a (fst (y_axis_button_a g))) = g
    /\ (forall all_data,
           update_table_part_a (fst (y_axis_button_a g)) all_data
           = update_table_part_a g all_data)
    /\ same_outcome (Forall2 (toggled_a (y_axis_var_a g)))
         (update_graph_part_a g false) (snd (y_axis_button_a g)).
Proof.
  intros F num g. split; [reflexivity|]. split; [|split].
  - destruct g as [? ? ? ? ? ? ? ? [] ? ? ? ? ?]; reflexivity.
  - intros all_data. reflexivity.
  - unfold y_axis_button_a. cbn [snd].
    unfold update_graph_part_a.
    change (axes_part_a (set_y_axis_var_a g (toggle_y_axis (y_axis_var_a g)))
                        false)
      with (axes_part_a g false).
    apply same_outcome_bind. intros [[Pbs Pts] bs] _.
    apply plot_lines_a_toggled.
Qed.

(** X4.  The toggle button of part B: as for part A. *)
Theorem X4_y_axis_button_b_redraw :
  forall (F : Type) (num : PyFloat F) (g : Gui),
    y_axis_var_b (fst (y_axis_button_b g)) = toggle_y_axis (y_axis_var_b g)
    /\ fst (y_axis_button_b (fst (y_axis_button_b g))) = g
    /\ (forall all_data,
           update_table_part_b (fst (y_axis_button_b g)) all_data
           = update_table_part_b g all_data)
    /\ same_outcome (Forall2 (toggled_b (y_axis_var_b g)))
         (update_graph_part_b g false) (snd (y_axis_button_b g)).
Proof.
  intros F num g. split; [reflexivity|]. split; [|split].
  - destruct g as [? ? ? ? ? ? ? ? ? ? ? ? ? []]; reflexivity.
  - intros all_data. reflexivity.
  - unfold y_axis_button_b. cbn [snd].
    unfold update_graph_part_b.
    change (axes_part_b (set_y_axis_var_b g (toggle_y_axis (y_axis_var_b g)))
                        false)
      with (axes_part_b g false).
    apply same_outcome_bind. intros [Pcs cs] _.
    apply plot_lines_b_toggled.
Qed.

(** ** Order inside an axis *)

Lemma StronglySorted_map_seq (A : Type) (R : A -> A -> Prop) (f : nat -> A)
      (a k : nat) :
  (forall i j, (a <= i < j)%nat -> (j < a + k)%nat -> R (f i) (f j)) ->
  StronglySorted R (map f (seq a k)).
Proof.
  revert a. induction k as [|k IH]; intros a Hf; simpl; constructor.
  - apply IH. intros i j Hij Hj. apply Hf; lia.
  - apply Forall_forall. intros x Hx. apply in_map_iff in Hx.
    destruct Hx as (j & <- & Hj). apply in_seq in Hj. apply Hf; lia.
Qed.

Lemma StronglySorted_map_range (A : Type) (R : A -> A -> Prop) (f : Z -> A)
      (m : Z) :
  (forall i j, (0 <= i < j)%Z -> (j < m)%Z -> R (f i) (f j)) ->
  StronglySorted R (map f (range m)).
Proof.
  intros Hf. unfold range. rewrite map_map.
  apply StronglySorted_map_seq. intros i j Hij Hj. apply Hf; lia.
Qed.

Lemma StronglySorted_snoc (A : Type) (R : A -> A -> Prop) (l : list A) (x : A) :
  StronglySorted R l -> Forall (fun y => R y x) l -> StronglySorted R (l ++ [x]).
Proof.
  induction 1 as [|y l Hl IH Hy]; intros Hx; simpl.
  - constructor; constructor.
  - inversion Hx as [|? ? Hyx Hlx]; subst. constructor; [auto|].
    apply Forall_app. split; [exact Hy | constructor; [exact Hyx | constructor]].
Qed.

Lemma in_range (i m : Z) : In i (range m) <-> (0 <= i < m)%Z.
Proof.
  unfold range. rewrite in_map_iff. split.
  - intros (k & <- & Hk). apply in_seq in Hk. lia.
  - intros Hi. exists (Z.to_nat i). split; [lia|]. apply in_seq. lia.
Qed.

Module ExactOrder.

Import Exact.
Local Open Scope Qc_scope.

Lemma step_mono (mn res : Qc) (i j : Z) :
  0 <= res -> (i <= j)%Z -> mn + res * of_int i <= mn + res * of_int j.
Proof.
  intros Hres Hij. unfold Qcle in *.
  rewrite !QcOrder.this_plus, !QcOrder.this_mult, !ExactAxis.this_of_int.
  change (this 0) with 0%Q in Hres.
  rewrite Zle_Qle in Hij.
  set (a := inject_Z i) in *. set (b := inject_Z j) in *. clearbody a b.
  nra.
Qed.


Lemma generated_sorted (mn res : Qc) (m : Z) :
  0 < res ->
  StronglySorted Qcle
    (map (fun i => round_to (add mn (mul res (of_int i))) 10) (range m)).
Proof.
  intros Hres. apply StronglySorted_map_range. intros i j Hij _.
  apply ExactAxis.Qc_round_to_mono.
  apply (step_mono mn (Qclt_le_weak _ _ Hres)). lia.
Qed.

Lemma generated_bounds (mn mx res : Qc) :
  0 < res -> round_to mn 10 = mn -> round_to mx 10 = mx ->
  Forall (fun x => mn <= x <= mx)
    (map (fun i => round_to (add mn (mul res (of_int i))) 10)
         (range (Qfloor (this ((mx - mn) / res)%Qc) + 1))).
Proof.
  intros Hres Rmn Rmx. apply Forall_map, Forall_forall. intros i Hi.
  apply in_range in Hi. split.
  - rewrite <- Rmn at 1. apply ExactAxis.Qc_round_to_mono.
    rewrite <- (ExactAxis.step_zero mn res) at 1.
    apply (step_mono mn (Qclt_le_weak _ _ Hres)). lia.
  - rewrite <- Rmx. apply ExactAxis.Qc_round_to_mono.
    eapply Qcle_trans; [|apply (ExactAxis.step_below_max mn mx Hres)].
    apply (step_mono mn (Qclt_le_weak _ _ Hres)). lia.
Qed.

End ExactOrder.

(** X5.  The axes of part A, in exact arithmetic, on a range with a positive
    resolution, [min <= max] and ends that rounding to ten decimals leaves
    unchanged: the values never decrease along the list and all lie between
    [min] and [max]; there are [n + 1] or [n + 2] of them,
    [n = floor((max - min) / resolution)]. *)
Theorem X5_Pb_values_sorted_in_range :
  forall mn mx res : Qc,
    (0 < res)%Qc -> (mn <= mx)%Qc ->
    round_to mn 10 = mn -> round_to mx 10 = mx ->
    exists l,
      Pb_values mn mx res = Ok l
      /\ StronglySorted Qcle l
      /\ Forall (fun x => (mn <= x <= mx)%Qc) l
      /\ (Z.of_nat (length l) = Qfloor (this ((mx - mn) / res)%Qc) + 1
          \/ Z.of_nat (length l) = Qfloor (this ((mx - mn) / res)%Qc) + 2)%Z.
Proof.
  intros mn mx res Hres Hle Rmn Rmx.
  destruct (ExactAxis.rounded_values_valid Hres Hle) as (Hn & Hlen & _ & _ & E).
  pose proof (ExactOrder.generated_sorted mn
                (Qfloor (this ((mx - mn) / res)%Qc) + 1) Hres) as Hs.
  pose proof (ExactOrder.generated_bounds Hres Rmn Rmx) as Hb.
  eexists. split; [exact E|].
  match goal with |- context [if ?c then _ else _] => destruct c end.
  - split; [|split].
    + apply StronglySorted_snoc; [exact Hs|].
      eapply Forall_impl; [|exact Hb]. intros x Hx. apply Hx.
    + apply Forall_app. split; [exact Hb|].
      constructor; [|constructor]. split; [exact Hle | apply Qcle_refl].
    + right. rewrite length_app, Hlen. cbn [length]. lia.
  - rewrite app_nil_r. split; [exact Hs|]. split; [exact Hb|].
    left. rewrite Hlen. lia.
Qed.

Lemma X5_Pb_values_sorted_in_range_witness :
  exists l,
    Pb_values (F := Qc) (literal 0.2) (literal 0.3) (literal 0.01) = Ok l
    /\ StronglySorted Qcle l
    /\ Forall (fun x => (literal 0.2 <= x <= literal 0.3)%Qc) l.
Proof.
  assert (R : (0 < literal 0.01)%Qc) by (vm_compute; reflexivity).
  assert (L : (literal 0.2 <= literal 0.3)%Qc) by (vm_compute; discriminate).
  assert (G1 : round_to (F := Qc) (literal 0.2) 10 = literal 0.2)
    by (apply Qc_is_canon; vm_compute; reflexivity).
  assert (G2 : round_to (F := Qc) (literal 0.3) 10 = literal 0.3)
    by (apply Qc_is_canon; vm_compute; reflexivity).
  destruct (X5_Pb_values_sorted_in_range R L G1 G2) as (l & E & S & B & _).
  exists l. split; [exact E|]. split; [exact S | exact B].
Defined.

(** X6.  The axis of part B on the ranges its widgets offer, in binary64.
    For [Pc Min <= Pc Max] among [0.0, 0.1, ..., 1.0] and each listed
    resolution ([0.1], [0.05], [0.02], [0.01]) the axis is returned, starts
    at [Pc Min], increases strictly, has no value more than [1e-9] above
    [Pc Max], and has [floor((max - min) / resolution) + 1] values or one
    fewer.  It can end above [Pc Max] in the last place: on [(0.3, 0.9, 0.1)]
    the last value is [0.9000000000000001]; and it can stop one step short:
    on [(0.0, 0.3, 0.1)] it is [[0.0, 0.1, 0.2]]. *)
Theorem X6_Pc_values_on_widget_ranges :
  forallb (fun range => let '(a, b, r) := range in Sample.pc_axis_ok a b r)
          Sample.pc_ranges
  = true
  /\ length Sample.pc_ranges = 264%nat
  /\ Pc_values (F := Binary64.float) (literal 0.3) (literal 0.9) (literal 0.1)
     = Ok [literal 0.3; literal 0.4; literal 0.5; literal 0.6000000000000001;
           literal 0.7; literal 0.8; literal 0.9000000000000001]
  /\ Pc_values (F := Binary64.float) (literal 0) (literal 0.3) (literal 0.1)
     = Ok [literal 0; literal 0.1; literal 0.2].
Proof.
  split; [vm_compute; reflexivity|].
  split; [vm_compute; reflexivity|].
  split; vm_compute; reflexivity.
Qed.


(** ** The last item of an axis, in both arithmetics *)

Lemma last_item_inv (A : Type) (l : list A) (x : A) :
  last_item l = Ok x -> exists init, l = init ++ [x].
Proof.
  unfold last_item. destruct (rev l) as [|y t] eqn:E; [discriminate|].
  intros E'. injection E' as ->. exists (rev t).
  rewrite <- (rev_involutive l), E. reflexivity.
Qed.

Section LastItem.

Context {F : Type} `{PyFloat F}.

Hypothesis Hirrefl : forall x : F, ltb x x = false.

Lemma rounded_values_last (X_min X_max x_res : F) (l : list F) :
  rounded_values X_min X_max x_res = Ok l ->
  exists init last, l = init ++ [last] /\ ltb last X_max = false.
Proof.
  unfold rounded_values. intros E.
  apply bind_ok in E. destruct E as (q & _ & E).
  apply bind_ok in E. destruct E as (n & _ & E).
  apply bind_ok in E. destruct E as (last & Elast & E).
  apply last_item_inv in Elast. destruct Elast as (init & Einit).
  rewrite Einit in E.
  destruct (ltb last X_max) eqn:L; injection E as <-.
  - exists (init ++ [last]), X_max. split; [reflexivity | apply Hirrefl].
  - exists init, last. split; [reflexivity | exact L].
Qed.

End LastItem.

Module Binary64Facts.

Import Binary64.

Lemma SFcompare_refl (x : float) :
  SFcompare x x = None \/ SFcompare x x = Some Eq.
Proof.
  destruct x as [s|s| |s m e]; simpl; auto.
  - destruct s; auto.
  - right. rewrite Z.compare_refl.
    rewrite Pos.compare_cont_refl. destruct s; reflexivity.
Qed.

Lemma ltb_irrefl (x : float) : ltb x x = false.
Proof.
  change (SFltb x x = false). unfold SFltb.
  destruct (SFcompare_refl x) as [-> | ->]; reflexivity.
Qed.

(** A resolution that is not a number. *)
Lemma truediv_nan (x : float) : truediv x S754_nan = Ok S754_nan.
Proof. unfold truediv. destruct x; reflexivity. Qed.

End Binary64Facts.

Lemma Qc_ltb_irrefl (x : Qc) : ltb x x = false.
Proof. apply ExactFacts.ltb_ge. apply Qcle_refl. Qed.

(** X9.  In exact arithmetic and in binary64 alike, an axis of part A that is
    returned is not empty and its last item is not below the maximum of the
    range. *)
Theorem X9_Pb_values_last_not_below_max :
  (forall (mn mx res : Qc) (l : list Qc),
      Pb_values mn mx res = Ok l ->
      exists init last, l = init ++ [last] /\ (mx <= last)%Qc)
  /\ (forall (mn mx res : Binary64.float) (l : list Binary64.float),
         Pb_values mn mx res = Ok l ->
         exists init last, l = init ++ [last] /\ ltb last mx = false).
Proof.
  split.
  - intros mn mx res l E.
    destruct (rounded_values_last Qc_ltb_irrefl _ _ _ E) as (init & last & -> & L).
    exists init, last. split; [reflexivity|].
    apply ExactFacts.ltb_ge. exact L.
  - intros mn mx res l E.
    exact (rounded_values_last Binary64Facts.ltb_irrefl _ _ _ E).
Qed.

Lemma X9_Pb_values_last_not_below_max_witness :
  exists init last,
    Pb_values (F := Binary64.float) (literal 0.2) (literal 0.3) (literal 0.01)
    = Ok (init ++ [last])
    /\ ltb last (literal 0.3) = false.
Proof.
  destruct (Pb_values (F := Binary64.float)
              (literal 0.2) (literal 0.3) (literal 0.01)) as [l|e] eqn:E.
  - destruct (proj2 X9_Pb_values_last_not_below_max _ _ _ _ E)
      as (init & last & -> & L).
    exists init, last. split; [reflexivity | exact L].
  - exfalso. vm_compute in E. discriminate E.
Defined.

(** X10.  In binary64, a resolution that is not a number makes every axis raise
    [ValueError] (the quotient is not a number and [int] rejects it), and a
    quotient that overflows makes it raise [OverflowError]. *)
Theorem X10_axes_special_floats :
  (forall mn mx : Binary64.float,
      Pb_values mn mx S754_nan = Raise ValueError
      /\ Pc_values mn mx S754_nan = Raise ValueError)
  /\ (forall (mn mx res : Binary64.float) (s : bool),
         truediv (sub mx mn) res = Ok (S754_infinity s) ->
         Pb_values mn mx res = Raise OverflowError
         /\ Pc_values mn mx res = Raise OverflowError).
Proof.
  split.
  - intros mn mx. unfold Pb_values, rounded_values, Pc_values.
    rewrite Binary64Facts.truediv_nan. split; reflexivity.
  - intros mn mx res s E. unfold Pb_values, rounded_values, Pc_values.
    rewrite E. split; reflexivity.
Qed.

Lemma X10_axes_special_floats_witness :
  truediv (F := Binary64.float)
    (sub (literal 1) (literal 0)) (literal (1 # 10 ^ 320))
  = Ok (S754_infinity false)
  /\ Pb_values (F := Binary64.float) (literal 0) (literal 1)
       (literal (1 # 10 ^ 320)) = Raise OverflowError
  /\ Pc_values (F := Binary64.float) (literal 0) (literal 1)
       (literal (1 # 10 ^ 320)) = Raise OverflowError.
Proof.
  assert (E : truediv (F := Binary64.float)
                (sub (literal 1) (literal 0)) (literal (1 # 10 ^ 320))
              = Ok (S754_infinity false)) by (vm_compute; reflexivity).
  split; [exact E|].
  exact (proj2 X10_axes_special_floats _ _ _ _ E).
Defined.


Module ExactEdges.
Import Exact.
Local Open Scope Qc_scope.

Lemma zero_quotient (mn res : Qc) : res <> 0 -> (mn - mn) / res = 0.
Proof. intros Hres. field. exact Hres. Qed.

Lemma Pc_values_single (mn res : Qc) :
  res <> 0 -> Pc_values mn mn res = Ok [mn].
Proof.
  intros Hres. unfold Pc_values.
  rewrite ExactFacts.truediv_exact by exact Hres.
  cbn [Py.bind int_of Qc_float].
  change (@sub Qc _) with Qcminus. rewrite (zero_quotient mn Hres).
  change (range (Qc_int 0 + 1)) with [0%Z]. cbn [map].
  rewrite ExactAxis.step_zero. reflexivity.
Qed.

Lemma rounded_values_single (mn res : Qc) :
  res <> 0 -> round_to mn 10 = mn -> rounded_values mn mn res = Ok [mn].
Proof.
  intros Hres Hgrid. unfold rounded_values.
  rewrite ExactFacts.truediv_exact by exact Hres.
  cbn [Py.bind int_of Qc_float].
  change (@sub Qc _) with Qcminus. rewrite (zero_quotient mn Hres).
  change (range (Qc_int 0 + 1)) with [0%Z]. cbn [map].
  rewrite ExactAxis.step_zero, Hgrid.
  change (last_item [mn]) with (Ok mn). cbn [Py.bind].
  rewrite (proj2 (ExactFacts.ltb_ge mn mn) (Qcle_refl mn)). reflexivity.
Qed.

End ExactEdges.

Section EmptyAxis.

Context {F : Type} `{PyFloat F}.

Lemma plot_lines_b_empty (y : YAxis) (c_values : list F) :
  plot_lines_b y c_values [] = Ok (map empty_line_b c_values).
Proof.
  unfold plot_lines_b.
  induction c_values as [|c t IH]; [reflexivity|].
  cbn [mapM map Py.bind] in *. rewrite IH. reflexivity.
Qed.

Lemma populate_part_b_empty (c_values : list F) :
  populate_part_b c_values [] = Ok [].
Proof.
  unfold populate_part_b.
  induction c_values as [|c t IH]; [reflexivity|].
  cbn [concatM mapM Py.bind] in *. rewrite IH. reflexivity.
Qed.

End EmptyAxis.

(** X11.  A range whose ends are equal, in exact arithmetic: with any
    resolution other than 0, of either sign, the axis of part B is the single
    value [min], and so is an axis of part A when rounding to ten decimals
    leaves [min] unchanged. *)
Theorem X11_single_point_range :
  forall mn res : Qc,
    res <> 0%Qc ->
    Pc_values mn mn res = Ok [mn]
    /\ (round_to mn 10 = mn ->
        Pb_values mn mn res = Ok [mn] /\ Pt_values mn mn res = Ok [mn]).
Proof.
  intros mn res Hres. split; [exact (ExactEdges.Pc_values_single mn Hres)|].
  intros Hgrid. split; exact (ExactEdges.rounded_values_single Hres Hgrid).
Qed.

Lemma X11_single_point_range_witness :
  Pc_values (F := Qc) (literal 0.4) (literal 0.4) (literal (-0.1))
  = Ok [literal 0.4]
  /\ Pb_values (F := Qc) (literal 0.4) (literal 0.4) (literal (-0.1))
     = Ok [literal 0.4].
Proof.
  assert (R : literal (-0.1) <> 0%Qc) by (intros E; vm_compute in E; discriminate E).
  assert (G : round_to (F := Qc) (literal 0.4) 10 = literal 0.4)
    by (apply Qc_is_canon; vm_compute; reflexivity).
  split.
  - exact (proj1 (X11_single_point_range (literal 0.4) R)).
  - exact (proj1 (proj2 (X11_single_point_range (literal 0.4) R) G)).
Defined.

(** X12.  Part B on an inverted range.  In any arithmetic, when [int] of the
    computed quotient [(Pc_max - Pc_min) / resolution] is at most [-1], the
    axis is empty: the graph update hands the plot one line without points
    for each [c], and the table update builds a table without rows; no
    exception comes from the computation.  In binary64 this is the case
    exactly when the computed quotient is at most [-1].  On
    [(0.3, 0.2, 0.1)], whose exact quotient is [-1], the computed quotient is
    [-0.9999999999999998] and the axis is [[0.3]]. *)
Theorem X12_part_b_inverted_range_is_empty :
  (forall (F : Type) (num : PyFloat F) (g : Gui) (all_data : bool)
          (q : F) (n : Z),
      truediv (sub (pc_max_var g) (pc_min_var g)) (pc_res_var g) = Ok q ->
      int_of q = Ok n -> (n <= -1)%Z ->
      update_graph_part_b g all_data
      = Ok (map empty_line_b (c_values_of g all_data))
      /\ update_table_part_b g all_data = Ok []
      /\ (if all_data then calc_all_button_b else calc_button_b) g
         = Ok (map empty_line_b (c_values_of g all_data), []))
  /\ (forall q : Binary64.float,
         (Binary64.to_Q q <= -1 # 1)%Q <->
         exists n, int_of q = Ok n /\ (n <= -1)%Z)
  /\ Pc_values (F := Binary64.float) (literal 0.3) (literal 0.2) (literal 0.1)
     = Ok [literal 0.3].
Proof.
  split; [|split; [|vm_compute; reflexivity]].
  - intros F num g all_data q n Eq In Hn.
    destruct (Pc_values_by_quotient _ _ _ Eq) as (_ & E & _).
    specialize (E n In Hn).
    assert (G : update_graph_part_b g all_data
                = Ok (map empty_line_b (c_values_of g all_data))).
    { unfold update_graph_part_b, axes_part_b. rewrite E. cbn [Py.bind].
      destruct all_data; cbn [Py.bind]; apply plot_lines_b_empty. }
    assert (T : update_table_part_b g all_data = Ok []).
    { unfold update_table_part_b, axes_part_b. rewrite E. cbn [Py.bind].
      destruct all_data; cbn [Py.bind]; apply populate_part_b_empty. }
    split; [exact G|]. split; [exact T|].
    destruct all_data; unfold calc_all_button_b, calc_button_b;
      rewrite G, T; reflexivity.
  - intros q. pose proof (Binary64Int.int_of_float_spec q) as I. split.
    + intros Hq.
      destruct q as [s|s| |s m e];
        try (exfalso; revert Hq; apply Qlt_not_le; reflexivity).
      destruct I as (n & In & Hn). exists n. split; [exact In|].
      apply Hn. exact Hq.
    + intros (n & In & Hn).
      destruct q as [s|s| |s m e]; try (rewrite I in In; discriminate In);
        destruct I as (n' & In' & Hn');
        rewrite In' in In; injection In as ->; apply Hn'; exact Hn.
Qed.

Lemma X12_part_b_inverted_range_is_empty_witness :
  update_graph_part_b (F := Binary64.float) inverted_pc_gui true
  = Ok [empty_line_b (of_int 0); empty_line_b (of_int 1);
        empty_line_b (of_int 2)]
  /\ update_table_part_b (F := Binary64.float) inverted_pc_gui true = Ok [].
Proof.
  assert (Q : truediv (F := Binary64.float)
                (sub (pc_max_var inverted_pc_gui) (pc_min_var inverted_pc_gui))
                (pc_res_var inverted_pc_gui)
              = Ok (literal (-4))) by (vm_compute; reflexivity).
  assert (I : int_of (F := Binary64.float) (literal (-4)) = Ok (-4)%Z)
    by (vm_compute; reflexivity).
  assert (N : (-4 <= -1)%Z) by lia.
  pose proof (proj1 X12_part_b_inverted_range_is_empty
                _ _ inverted_pc_gui true _ _ Q I N) as (G & T & _).
  split; [exact G | exact T].
Defined.


Section Shape.

Context {F : Type} `{PyFloat F}.

Lemma plot_lines_a_shape (y : YAxis) (b_values Pt_values Pb_values : list F)
      (plots : list PlotA) :
  plot_lines_a y b_values Pt_values Pb_values = Ok plots ->
  map line_key_a plots = list_prod b_values Pt_values
  /\ Forall well_formed_a plots.
Proof.
  unfold plot_lines_a. intros E.
  apply concatM_groups in E. destruct E as (groups & HF & ->).
  induction HF as [|b g bs groups Eg _ (IHk & IHw)];
    [split; [reflexivity | constructor]|].
  cbv beta zeta in Eg. apply mapM_Forall2 in Eg.
  cbn [concat list_prod]. rewrite map_app, IHk. split.
  - f_equal. clear - Eg.
    induction Eg as [|Pt p Pts g Ep _ IH]; [reflexivity|].
    cbn [map]. rewrite IH. f_equal.
    apply bind_ok in Ep. destruct Ep as (values & _ & Ep).
    injection Ep as <-. reflexivity.
  - apply Forall_app. split; [|exact IHw].
    eapply Forall2_Forall_r; [exact Eg|].
    intros Pt p _ Ep. cbv beta in Ep.
    apply bind_ok in Ep. destruct Ep as (values & Ev & Ep).
    injection Ep as <-. split; [|reflexivity].
    cbn [pa_x pa_y]. rewrite length_map. symmetry.
    eapply Forall2_length_eq, mapM_Forall2. exact Ev.
Qed.

Lemma plot_lines_b_shape (y : YAxis) (c_values Pc_values : list F)
      (plots : list PlotB) :
  plot_lines_b y c_values Pc_values = Ok plots ->
  map pb_c plots = c_values
  /\ Forall (fun p => length (pb_y p) = length (pb_x p)) plots.
Proof.
  unfold plot_lines_b. intros E. apply mapM_Forall2 in E. split.
  - induction E as [|c p cs plots Ep _ IH]; [reflexivity|].
    cbn [map]. rewrite IH. f_equal.
    apply bind_ok in Ep. destruct Ep as (values & _ & Ep).
    injection Ep as <-. reflexivity.
  - eapply Forall2_Forall_r; [exact E|].
    intros c p _ Ep. cbv beta in Ep.
    apply bind_ok in Ep. destruct Ep as (values & Ev & Ep).
    injection Ep as <-. cbn [pb_x pb_y]. rewrite length_map. symmetry.
    eapply Forall2_length_eq, mapM_Forall2. exact Ev.
Qed.

End Shape.

(** X13.  The lines of a graph of part A, in any arithmetic: one line for each
    pair of a [b] and a [Pt] value, all lines of the first [b] before those
    of the next and in the order of the [Pt] axis; every line has as many
    y-values as x-values and is solid exactly when its [b] equals 3.  With
    [all_data] there are [2 * |Pt axis|] lines, without it one line. *)
Theorem X13_graph_part_a_lines :
  forall (F : Type) (num : PyFloat F) (g : Gui) (all_data : bool)
         (plots : list PlotA),
    update_graph_part_a g all_data = Ok plots ->
    exists Pbs Pts bs,
      axes_part_a g all_data = Ok (Pbs, Pts, bs)
      /\ map line_key_a plots = list_prod bs Pts
      /\ Forall well_formed_a plots
      /\ length plots
         = (if all_data then 2 * length Pts else 1)%nat.
Proof.
  intros F num g all_data plots E. unfold update_graph_part_a in E.
  apply bind_ok in E. destruct E as ([[Pbs Pts] bs] & A & E).
  destruct (plot_lines_a_shape _ _ _ _ E) as (K & W).
  exists Pbs, Pts, bs. split; [exact A|]. split; [exact K|].
  split; [exact W|].
  rewrite <- (length_map line_key_a), K, length_prod.
  unfold axes_part_a in A.
  apply bind_ok in A. destruct A as (Pbs' & _ & A).
  destruct all_data.
  - apply bind_ok in A. destruct A as (Pts' & _ & A).
    injection A as _ _ <-. reflexivity.
  - injection A as _ <- <-. reflexivity.
Qed.

Lemma X13_graph_part_a_lines_witness :
  exists plots Pts,
    update_graph_part_a (F := Binary64.float) initial_gui true = Ok plots
    /\ map line_key_a plots = list_prod [of_int 3; of_int 4] Pts
    /\ length plots = 6%nat.
Proof.
  destruct (update_graph_part_a (F := Binary64.float) initial_gui true)
    as [plots|e] eqn:E.
  - destruct (@X13_graph_part_a_lines _ _ _ _ _ E) as (Pbs & Pts & bs & A & K & _ & L).
    assert (A' : exists Pbs',
               axes_part_a (F := Binary64.float) initial_gui true
               = Ok (Pbs', [literal 0.5; literal 0.6; literal 0.7],
                     [of_int 3; of_int 4]))
      by (eexists; vm_compute; reflexivity).
    destruct A' as (Pbs' & A'). rewrite A' in A. injection A as _ <- <-.
    exists plots, [literal 0.5; literal 0.6; literal 0.7].
    split; [reflexivity|]. split; [exact K | exact L].
  - exfalso. vm_compute in E. discriminate E.
Defined.

(** X14.  The lines of a graph of part B, in any arithmetic: one line for each
    [c] value, in order, each with as many y-values as x-values; three lines
    with [all_data], one without. *)
Theorem X14_graph_part_b_lines :
  forall (F : Type) (num : PyFloat F) (g : Gui) (all_data : bool)
         (plots : list PlotB),
    update_graph_part_b g all_data = Ok plots ->
    map pb_c plots
    = (if all_data then [of_int 0; of_int 1; of_int 2] else [c_slider_b g])
    /\ Forall (fun p => length (pb_y p) = length (pb_x p)) plots.
Proof.
  intros F num g all_data plots E. unfold update_graph_part_b in E.
  apply bind_ok in E. destruct E as ([Pcs cs] & A & E).
  destruct (plot_lines_b_shape _ _ _ E) as (K & W).
  split; [|exact W]. rewrite K.
  unfold axes_part_b in A.
  apply bind_ok in A. destruct A as (Pcs' & _ & A).
  destruct all_data; injection A as _ <-; reflexivity.
Qed.

Lemma X14_graph_part_b_lines_witness :
  exists plots,
    update_graph_part_b (F := Binary64.float) initial_gui true = Ok plots
    /\ map pb_c plots = [of_int 0; of_int 1; of_int 2].
Proof.
  destruct (update_graph_part_b (F := Binary64.float) initial_gui true)
    as [plots|e] eqn:E.
  - exists plots. split; [reflexivity|].
    exact (proj1 (@X14_graph_part_b_lines _ _ _ _ _ E)).
  - exfalso. vm_compute in E. discriminate E.
Defined.

Module ButtonSteps.
Import Exact.
Local Open Scope Qc_scope.

(** A multiple of [1/100] is unchanged by rounding to two decimals. *)
Lemma round_to_2_of_hundredths (k : Z) :
  (Decimal.round_to (k # 100) 2 == k # 100)%Q.
Proof.
  unfold Decimal.round_to.
  change (Decimal.pow10 2) with (100 # 1)%Q.
  assert (E : ((k # 100) * (100 # 1) == inject_Z k)%Q).
  { unfold Qeq, Qmult, inject_Z. simpl. lia. }
  rewrite (ButtonFacts.round_half_even_comp E), ButtonFacts.round_half_even_Z.
  unfold Qeq, Qdiv, Qmult, Qinv, inject_Z. simpl. lia.
Qed.

Lemma round_to_2_eq (x : Qc) (k : Z) :
  (this x == k # 100)%Q -> round_to x 2 = Q2Qc (k # 100).
Proof.
  intros E. apply Qc_is_canon.
  change (Qred (Decimal.round_to x 2) == Qred (k # 100))%Q.
  rewrite !Qred_correct, (ButtonFacts.round_to_comp 2 E).
  apply round_to_2_of_hundredths.
Qed.

Lemma hundredths_le (j k : Z) : Q2Qc (j # 100) <= Q2Qc (k # 100) <-> (j <= k)%Z.
Proof.
  unfold Qcle. cbn [this Q2Qc]. rewrite !Qred_correct.
  unfold Qle. simpl. lia.
Qed.

Lemma increment_hundredths (k : Z) :
  increment (Q2Qc (k # 100)) default_step = Q2Qc ((k + 10) # 100).
Proof.
  unfold increment. apply round_to_2_eq.
  change (this (Q2Qc (k # 100) + Q2Qc (1 # 10)) == (k + 10) # 100)%Q.
  rewrite QcOrder.this_plus. cbn [this Q2Qc]. rewrite !Qred_correct.
  unfold Qeq, Qplus. simpl. lia.
Qed.

Lemma sub_step_hundredths (k : Z) :
  round_to (sub (Q2Qc (k # 100)) default_step) 2 = Q2Qc ((k - 10) # 100).
Proof.
  apply round_to_2_eq.
  change (this (Q2Qc (k # 100) - Q2Qc (1 # 10)) == (k - 10) # 100)%Q.
  rewrite QcOrder.this_minus. cbn [this Q2Qc]. rewrite !Qred_correct.
  unfold Qeq, Qminus, Qplus, Qopp. simpl. lia.
Qed.

Lemma leb_le (x y : Qc) : leb x y = true <-> x <= y.
Proof.
  change (Qc_leb x y = true <-> (this x <= this y)%Q).
  rewrite Qle_alt. unfold Qc_leb, Qccompare.
  destruct (this x ?= this y)%Q; split; congruence.
Qed.

Lemma zero_hundredths : 0 = Q2Qc (0 # 100).
Proof. apply Qc_is_canon. reflexivity. Qed.

Lemma tenth_hundredths : literal 0.1 = Q2Qc (10 # 100).
Proof. apply Qc_is_canon. reflexivity. Qed.

Lemma leb_0_hundredths (k : Z) :
  leb (of_int 0) (Q2Qc (k # 100)) = (0 <=? k)%Z.
Proof.
  rewrite ExactFacts.of_int_0, zero_hundredths.
  destruct (Z.leb_spec 0 k) as [L|L].
  - apply leb_le. apply (proj2 (hundredths_le _ _)). exact L.
  - destruct (leb (Q2Qc (0 # 100)) (Q2Qc (k # 100))) eqn:C; [|reflexivity].
    apply leb_le in C. apply (proj1 (hundredths_le _ _)) in C. lia.
Qed.

Lemma decrement_hundredths (k : Z) :
  decrement (Q2Qc (k # 100)) default_step
  = if (10 <=? k)%Z then Q2Qc ((k - 10) # 100) else Q2Qc (k # 100).
Proof.
  unfold decrement. rewrite sub_step_hundredths, leb_0_hundredths.
  destruct (Z.leb_spec 0 (k - 10)), (Z.leb_spec 10 k); try lia; reflexivity.
Qed.

Lemma on_grid (v : Qc) :
  round_to v 2 = v -> exists k : Z, v = Q2Qc (k # 100).
Proof.
  intros E. destruct (ButtonFacts.round_to_2_hundredths v) as (k & Ek).
  exists k. congruence.
Qed.

End ButtonSteps.


(** X15.  The [+] and [-] buttons undo each other.  In exact arithmetic, for a
    value [v >= 0] with two decimals: [-] after [+] gives [v] back; [+] after
    [-] gives [v] back when [v >= 0.1]; and [-] leaves a value below [0.1]
    as it is.  In binary64, [-] after [+] gives back each of the floats
    [0.00, 0.01, ..., 9.99]. *)
Theorem X15_buttons_round_trip :
  (forall v : Qc,
      round_to v 2 = v -> (0 <= v)%Qc ->
      decrement (increment v default_step) default_step = v
      /\ ((literal 0.1 <= v)%Qc ->
          increment (decrement v default_step) default_step = v)
      /\ ((v < literal 0.1)%Qc -> decrement v default_step = v))
  /\ forallb round_trip_b64 (hundredths 1000) = true.
Proof.
  split; [|vm_compute; reflexivity].
  intros v Hgrid Hv.
  destruct (ButtonSteps.on_grid Hgrid) as (k & ->).
  rewrite ButtonSteps.zero_hundredths in Hv.
  apply (proj1 (ButtonSteps.hundredths_le _ _)) in Hv.
  split; [|split].
  - rewrite ButtonSteps.increment_hundredths, ButtonSteps.decrement_hundredths.
    destruct (Z.leb_spec 10 (k + 10)); [|lia].
    replace (k + 10 - 10)%Z with k by lia. reflexivity.
  - intros H1.
    rewrite ButtonSteps.tenth_hundredths in H1.
    apply (proj1 (ButtonSteps.hundredths_le _ _)) in H1.
    rewrite ButtonSteps.decrement_hundredths.
    destruct (Z.leb_spec 10 k); [|lia].
    rewrite ButtonSteps.increment_hundredths.
    replace (k - 10 + 10)%Z with k by lia. reflexivity.
  - intros H1.
    rewrite ButtonSteps.tenth_hundredths in H1.
    rewrite ButtonSteps.decrement_hundredths.
    destruct (Z.leb_spec 10 k) as [L|L]; [|reflexivity].
    exfalso. apply (proj2 (ButtonSteps.hundredths_le 10 k)) in L.
    exact (Qcle_not_lt _ _ L H1).
Qed.

Lemma X15_buttons_round_trip_witness :
  decrement (increment (F := Qc) (literal 0.25) default_step) default_step
  = literal 0.25.
Proof.
  assert (G : round_to (F := Qc) (literal 0.25) 2 = literal 0.25)
    by (apply Qc_is_canon; vm_compute; reflexivity).
  assert (P : (0 <= literal 0.25)%Qc) by (vm_compute; discriminate).
  exact (proj1 (proj1 X15_buttons_round_trip (literal 0.25) G P)).
Defined.

(** X16.  A range end is changed by the [+] and [-] buttons only.  In exact
    arithmetic, from an initial value [>= 0] with two decimals, whatever
    buttons are pressed, the value stays [>= 0] and keeps two decimals. *)
Theorem X16_pressed_nonnegative_two_decimals :
  forall initial v : Qc,
    (0 <= initial)%Qc -> round_to initial 2 = initial ->
    pressed initial v ->
    (0 <= v)%Qc /\ round_to v 2 = v.
Proof.
  intros initial v H0 Hgrid Hp.
  induction Hp as [|v Hp IH|v Hp IH].
  - split; assumption.
  - destruct IH as (Hv & Gv).
    destruct (ButtonSteps.on_grid Gv) as (k & ->).
    rewrite ButtonSteps.zero_hundredths in Hv |- *.
    apply (proj1 (ButtonSteps.hundredths_le _ _)) in Hv.
    rewrite ButtonSteps.increment_hundredths. split.
    + apply (proj2 (ButtonSteps.hundredths_le _ _)). lia.
    + apply ButtonSteps.round_to_2_eq. cbn [this Q2Qc]. apply Qred_correct.
  - destruct IH as (Hv & Gv).
    destruct (ButtonSteps.on_grid Gv) as (k & ->).
    rewrite ButtonSteps.zero_hundredths in Hv |- *.
    apply (proj1 (ButtonSteps.hundredths_le _ _)) in Hv.
    rewrite ButtonSteps.decrement_hundredths.
    destruct (Z.leb_spec 10 k); split;
      try (apply (proj2 (ButtonSteps.hundredths_le _ _)); lia);
      apply ButtonSteps.round_to_2_eq; cbn [this Q2Qc]; apply Qred_correct.
Qed.

Lemma X16_pressed_nonnegative_two_decimals_witness :
  (0 <= decrement (decrement (F := Qc) (literal 0.2) default_step)
          default_step)%Qc.
Proof.
  assert (P : (0 <= literal 0.2)%Qc) by (vm_compute; discriminate).
  assert (G : round_to (F := Qc) (literal 0.2) 2 = literal 0.2)
    by (apply Qc_is_canon; vm_compute; reflexivity).
  exact (proj1 (X16_pressed_nonnegative_two_decimals P G
                  (pressed_minus (pressed_minus (pressed_none _))))).
Defined.

Module ExactSweep.
Import Exact.
Local Open Scope Qc_scope.

Lemma cpi_no_prediction_mono (Pb Pb' Pt Pt' b b' : Qc) :
  0 <= Pb -> Pb <= Pb' -> 0 <= Pt -> Pt <= Pt' -> 0 <= b -> b <= b' ->
  1 + Pb * Pt * b <= 1 + Pb' * Pt' * b'.
Proof.
  intros H1 H2 H3 H4 H5 H6. qc2q.
  assert (0 <= this Pb * this Pt)%Q by (apply Qmult_le_0_compat; lra).
  assert (this Pb * this Pt <= this Pb' * this Pt')%Q by nra.
  nra.
Qed.

Lemma cpi_with_prediction_above (Pb Pt b Pc c : Qc) :
  0 <= Pb -> 0 <= Pt -> c <= b -> Pc <= 1 ->
  1 + Pb * Pt * c <= 1 + Pb * ((1 - Pc) * Pt * b + Pc * Pt * c).
Proof.
  intros HPb HPt Hcb HPc.
  assert (E : 1 + Pb * ((1 - Pc) * Pt * b + Pc * Pt * c)
              = (1 + Pb * Pt * c) + (Pb * Pt) * ((1 - Pc) * (b - c))) by ring.
  rewrite E.
  assert (Hd : 0 <= (Pb * Pt) * ((1 - Pc) * (b - c))).
  { qc2q. apply Qmult_le_0_compat; apply Qmult_le_0_compat; lra. }
  set (X := 1 + Pb * Pt * c) in *.
  set (Y := (Pb * Pt) * ((1 - Pc) * (b - c))) in *.
  qc2q. lra.
Qed.

Lemma cpi_with_prediction_below (Pb Pt b Pc c : Qc) :
  0 <= Pb -> 0 <= Pt -> c <= b -> 0 <= Pc ->
  1 + Pb * ((1 - Pc) * Pt * b + Pc * Pt * c) <= 1 + Pb * Pt * b.
Proof.
  intros HPb HPt Hcb HPc.
  assert (E : 1 + Pb * Pt * b
              = (1 + Pb * ((1 - Pc) * Pt * b + Pc * Pt * c))
                + (Pb * Pt) * (Pc * (b - c))) by ring.
  rewrite E.
  assert (Hd : 0 <= (Pb * Pt) * (Pc * (b - c))).
  { qc2q. apply Qmult_le_0_compat; apply Qmult_le_0_compat; lra. }
  set (X := 1 + Pb * ((1 - Pc) * Pt * b + Pc * Pt * c)) in *.
  set (Y := (Pb * Pt) * (Pc * (b - c))) in *.
  qc2q. lra.
Qed.

End ExactSweep.

(** X17.  In exact arithmetic, on non-negative arguments,
    [calculate_no_prediction] returns, its cpi does not fall and its
    throughput does not rise when any of [Pb], [Pt], [b] grows. *)
Theorem X17_no_prediction_monotone :
  forall Pb Pb' Pt Pt' b b' : Qc,
    (0 <= Pb)%Qc -> (Pb <= Pb')%Qc ->
    (0 <= Pt)%Qc -> (Pt <= Pt')%Qc ->
    (0 <= b)%Qc -> (b <= b')%Qc ->
    exists cpi thr cpi' thr',
      calculate_no_prediction Pb Pt b = Ok (cpi, thr)
      /\ calculate_no_prediction Pb' Pt' b' = Ok (cpi', thr')
      /\ (cpi <= cpi')%Qc /\ (thr' <= thr)%Qc.
Proof.
  intros Pb Pb' Pt Pt' b b' H1 H2 H3 H4 H5 H6.
  pose proof (ExactModel.cpi_no_prediction_ge_1 H1 H3 H5) as G.
  pose proof (ExactSweep.cpi_no_prediction_mono H1 H2 H3 H4 H5 H6) as M.
  pose proof (ExactModel.ge_1_pos G) as P.
  assert (P' : (0 < 1 + Pb' * Pt' * b')%Qc)
    by exact (Qclt_le_trans _ _ _ P M).
  do 4 eexists.
  split; [apply ExactFacts.no_prediction_exact, ExactModel.pos_neq_0, P|].
  split; [apply ExactFacts.no_prediction_exact, ExactModel.pos_neq_0, P'|].
  split; [exact M|]. apply ExactModel.inv_antitone; assumption.
Qed.

Lemma X17_no_prediction_monotone_witness :
  exists cpi thr cpi' thr',
    calculate_no_prediction (F := Qc) (literal 0.2) (literal 0.5) (of_int 3)
    = Ok (cpi, thr)
    /\ calculate_no_prediction (F := Qc) (literal 0.3) (literal 0.5) (of_int 4)
       = Ok (cpi', thr')
    /\ (cpi <= cpi')%Qc /\ (thr' <= thr)%Qc.
Proof.
  apply X17_no_prediction_monotone; vm_compute; discriminate.
Defined.

(** X18.  Prediction lies between the two penalties.  In exact arithmetic,
    for [Pb, Pt >= 0], [0 <= c <= b] and an accuracy [0 <= Pc <= 1], the
    cpi of [calculate_with_prediction] lies between the cpi of
    [calculate_no_prediction] with penalty [c] and with penalty [b], and its
    throughput between theirs, in the opposite order.  The floats the program
    returns follow this up to rounding: exactly with the arguments of part B
    ([Pb = 0.25], [Pt = 0.6], [b = 4], [c] in [0, 1, 2],
    [Pc = 0.00, 0.01, ..., 1.00]), and within [1e-12] for [Pb], [Pt] and [Pc]
    in [0.0, 0.2, ..., 1.0] and penalties [c <= b] in [0 .. 4]. *)
Theorem X18_prediction_between_penalties :
  (forall Pb Pt b Pc c : Qc,
      (0 <= Pb)%Qc -> (0 <= Pt)%Qc -> (0 <= c)%Qc -> (c <= b)%Qc ->
      (0 <= Pc)%Qc -> (Pc <= 1)%Qc ->
      exists lo tlo cpi thr hi thi,
        calculate_no_prediction Pb Pt c = Ok (lo, tlo)
        /\ calculate_with_prediction Pb Pt b Pc c = Ok (cpi, thr)
        /\ calculate_no_prediction Pb Pt b = Ok (hi, thi)
        /\ (lo <= cpi)%Qc /\ (cpi <= hi)%Qc
        /\ (thi <= thr)%Qc /\ (thr <= tlo)%Qc)
  /\ forallb (fun c =>
       Sample.prediction_between 0 Pb_fixed Pt_fixed b_fixed c
         (hundredths 101))
       Sample.c_values
     = true
  /\ forallb (fun Pb => forallb (fun Pt => forallb (fun bc =>
       Sample.prediction_between (1 # 1000000000000)
         Pb Pt (fst bc) (snd bc) Sample.fifths)
       Sample.penalty_pairs) Sample.fifths) Sample.fifths
     = true.
Proof.
  split; [|split; vm_compute; reflexivity].
  intros Pb Pt b Pc c HPb HPt Hc Hcb HPc0 HPc1.
  assert (Hb : (0 <= b)%Qc) by exact (Qcle_trans _ _ _ Hc Hcb).
  pose proof (ExactModel.cpi_no_prediction_ge_1 HPb HPt Hc) as G.
  pose proof (ExactModel.ge_1_pos G) as P.
  pose proof (ExactSweep.cpi_with_prediction_above HPb HPt Hcb HPc1) as A.
  pose proof (ExactSweep.cpi_with_prediction_below HPb HPt Hcb HPc0) as B.
  assert (P1 : (0 < 1 + Pb * ((1 - Pc) * Pt * b + Pc * Pt * c))%Qc)
    by exact (Qclt_le_trans _ _ _ P A).
  assert (P2 : (0 < 1 + Pb * Pt * b)%Qc)
    by exact (Qclt_le_trans _ _ _ P1 B).
  do 6 eexists.
  split; [apply ExactFacts.no_prediction_exact, ExactModel.pos_neq_0, P|].
  split; [apply ExactFacts.with_prediction_exact, ExactModel.pos_neq_0, P1|].
  split; [apply ExactFacts.no_prediction_exact, ExactModel.pos_neq_0, P2|].
  split; [exact A|]. split; [exact B|].
  split; apply ExactModel.inv_antitone; assumption.
Qed.

Lemma X18_prediction_between_penalties_witness :
  exists lo tlo cpi thr hi thi,
    calculate_no_prediction (F := Qc) Pb_fixed Pt_fixed (of_int 1) = Ok (lo, tlo)
    /\ calculate_with_prediction (F := Qc) Pb_fixed Pt_fixed b_fixed
         (literal 0.5) (of_int 1) = Ok (cpi, thr)
    /\ calculate_no_prediction (F := Qc) Pb_fixed Pt_fixed b_fixed = Ok (hi, thi)
    /\ (lo <= cpi)%Qc /\ (cpi <= hi)%Qc
    /\ (thi <= thr)%Qc /\ (thr <= tlo)%Qc.
Proof.
  apply (proj1 X18_prediction_between_penalties); vm_compute; discriminate.
Defined.
